(** * DirectX12Intro: the command-line parser and the Win32/DXGI bootstrap

    A shallow embedding of [main.cpp] and [Helpers.h].

    - [WChar]: wide strings and the two C library routines the parser
      calls on them ([wcscmp], [wcstol]).
    - [Parser]: [ParseCommandLineArguments] as a state-and-fault monad over
      the three globals it writes, the loop index and the liveness of the
      block returned by [CommandLineToArgvW].
    - [Win32]: [ThrowIfFailed], [RegisterWindowClass], [CreateWindow] and
      [GetAdapter] as programs over the platform calls they issue; the
      operating system is an arbitrary handler of those calls. *)

From Stdlib Require Import ZArith String Ascii List Bool Lia.
From stdpp Require Import base list.

Local Open Scope Z_scope.

(** ** Machine integers *)

Module Int.

(** [uint32_t]: conversion of an integer value to the unsigned 32-bit type. *)
Definition to_uint32 (z : Z) : Z := z mod 2 ^ 32.

(** [int] / [LONG] / [HRESULT] on Windows: signed 32-bit, two's complement. *)
Definition to_int32 (z : Z) : Z := (z + 2 ^ 31) mod 2 ^ 32 - 2 ^ 31.

Definition LONG_MAX : Z := 2 ^ 31 - 1.
Definition LONG_MIN : Z := - 2 ^ 31.

Definition in_int32 (z : Z) : Prop := LONG_MIN <= z <= LONG_MAX.

(** [int] subtraction and division ([/] truncates toward zero). *)
Definition sub32 (a b : Z) : Z := to_int32 (a - b).
Definition div32 (a b : Z) : Z := to_int32 (Z.quot a b).

End Int.

(** ** Wide strings *)

Module WChar.

(** A [wchar_t] is a UTF-16 code unit; a wide string is the sequence of
    code units before its terminating NUL. *)
Definition wchar_t := Z.
Definition wstring := list wchar_t.

(** The wide literal [L"..."] of an ASCII string. *)
Definition L (s : string) : wstring :=
  List.map (fun a => Z.of_nat (nat_of_ascii a)) (list_ascii_of_string s).

(** [wcscmp]: negative, zero or positive as the first string is less than,
    equal to or greater than the second, code unit by code unit. *)
Fixpoint wcscmp (s1 s2 : wstring) : Z :=
  match s1, s2 with
  | [], [] => 0
  | [], _ :: _ => -1
  | _ :: _, [] => 1
  | c1 :: t1, c2 :: t2 =>
      if c1 <? c2 then -1 else if c2 <? c1 then 1 else wcscmp t1 t2
  end.

(** White space skipped by [wcstol]: space, and [\t \n \v \f \r]. *)
Definition iswspace (c : wchar_t) : bool :=
  (c =? 32) || ((9 <=? c) && (c <=? 13)).

Definition iswdigit (c : wchar_t) : bool := (48 <=? c) && (c <=? 57).

Fixpoint skip_space (s : wstring) : wstring :=
  match s with
  | c :: t => if iswspace c then skip_space t else s
  | [] => []
  end.

(** The value of the longest prefix of decimal digits, accumulated from
    [acc]. *)
Fixpoint digits (acc : Z) (s : wstring) : Z :=
  match s with
  | c :: t => if iswdigit c then digits (acc * 10 + (c - 48)) t else acc
  | [] => acc
  end.

(** Out-of-range results of [wcstol] are [LONG_MAX] or [LONG_MIN]. *)
Definition clamp_long (z : Z) : Z :=
  Z.max Int.LONG_MIN (Z.min Int.LONG_MAX z).

(** [wcstol(s, nullptr, 10)]: optional white space, optional sign, decimal
    digits; 0 when no digits follow. *)
Definition wcstol (s : wstring) : Z :=
  match skip_space s with
  | 45 :: t => clamp_long (- digits 0 t)
  | 43 :: t => clamp_long (digits 0 t)
  | t => clamp_long (digits 0 t)
  end.

End WChar.

(** ** The command-line parser *)

Module Parser.
Import WChar.

(** The globals written by the parser, with their initialisers. *)
Record globals := mkGlobals {
  g_UseWarp : bool;
  g_ClientWidth : Z;
  g_ClientHeight : Z
}.

Definition defaults : globals :=
  {| g_UseWarp := false; g_ClientWidth := 1280; g_ClientHeight := 720 |}.

(** The state of a run: the globals, the loop variable [i], and whether
    the block that [CommandLineToArgvW] returned has been released. The
    index never exceeds [argc + 2], so [size_t] does not wrap. *)
Record pstate := mkState {
  glob : globals;
  i : nat;
  argv_freed : bool
}.

(** Undefined behaviour the run can reach. A run is followed up to the
    first of these: [Err f s] says that the program reaches [f] with the
    state [s], and nothing about what it does from there on. *)
Inductive fault :=
| OutOfBounds (k : nat)    (* argv[k] with k >= argc *)
| UseAfterFree (k : nat)   (* argv[k] after LocalFree(argv) *)
| DoubleFree.              (* LocalFree(argv) on a released block *)

Inductive result (A : Type) :=
| Ok (a : A) (s : pstate)
| Err (f : fault) (s : pstate)
| OutOfFuel.
Arguments Ok {A}. Arguments Err {A}. Arguments OutOfFuel {A}.

Definition M (A : Type) := pstate -> result A.

Definition ret {A} (a : A) : M A := fun s => Ok a s.
Definition bind {A B} (m : M A) (k : A -> M B) : M B :=
  fun s => match m s with
           | Ok a s' => k a s'
           | Err f s' => Err f s'
           | OutOfFuel => OutOfFuel
           end.

#[local] Notation "x <- m ;; k" := (bind m (fun x => k))
  (at level 100, m at next level, right associativity).
#[local] Notation "m ;;; k" := (bind m (fun _ => k))
  (at level 100, right associativity).

Section Run.
Variable argv : list wstring.

Definition argc : nat := length argv.

(** [argv[k]]. *)
Definition argv_at (k : nat) : M wstring := fun s =>
  if argv_freed s then Err (UseAfterFree k) s
  else match argv !! k with
       | Some t => Ok t s
       | None => Err (OutOfBounds k) s
       end.

Definition get_i : M nat := fun s => Ok (i s) s.

(** [++i], yielding the incremented value. *)
Definition pre_incr : M nat := fun s =>
  Ok (S (i s)) {| glob := glob s; i := S (i s); argv_freed := argv_freed s |}.

Definition modify_glob (f : globals -> globals) : M unit := fun s =>
  Ok tt {| glob := f (glob s); i := i s; argv_freed := argv_freed s |}.

Definition set_width (v : Z) : M unit :=
  modify_glob (fun g => {| g_UseWarp := g_UseWarp g;
                           g_ClientWidth := Int.to_uint32 v;
                           g_ClientHeight := g_ClientHeight g |}).

Definition set_height (v : Z) : M unit :=
  modify_glob (fun g => {| g_UseWarp := g_UseWarp g;
                           g_ClientWidth := g_ClientWidth g;
                           g_ClientHeight := Int.to_uint32 v |}).

Definition set_warp (b : bool) : M unit :=
  modify_glob (fun g => {| g_UseWarp := b;
                           g_ClientWidth := g_ClientWidth g;
                           g_ClientHeight := g_ClientHeight g |}).

(** [::LocalFree(argv)]. *)
Definition LocalFree : M unit := fun s =>
  if argv_freed s then Err DoubleFree s
  else Ok tt {| glob := glob s; i := i s; argv_freed := true |}.

(** [wcscmp(argv[i], a) == 0 || wcscmp(argv[i], b) == 0], with the
    short circuit. *)
Definition is_flag (a b : string) : M bool :=
  k <- get_i ;;
  t <- argv_at k ;;
  if wcscmp t (L a) =? 0 then ret true
  else
    k' <- get_i ;;
    t' <- argv_at k' ;;
    ret (wcscmp t' (L b) =? 0).

Definition width_step : M unit :=
  c <- is_flag "-w" "--width" ;;
  if c then
    k <- pre_incr ;;
    v <- argv_at k ;;
    set_width (wcstol v)
  else ret tt.

Definition height_step : M unit :=
  c <- is_flag "-h" "--height" ;;
  if c then
    k <- pre_incr ;;
    v <- argv_at k ;;
    set_height (wcstol v)
  else ret tt.

Definition warp_step : M unit :=
  c <- is_flag "-warp" "--warp" ;;
  if c then set_warp true else ret tt.

(** The body of the [for] loop: three independent [if] statements and
    the release of [argv]. *)
Definition loop_body : M unit :=
  width_step ;;; height_step ;;; warp_step ;;; LocalFree.

(** [for (size_t i = 0; i < argc; ++i) body]. *)
Fixpoint for_loop (fuel : nat) : M unit := fun s =>
  if (i s <? argc)%nat then
    match fuel with
    | O => OutOfFuel
    | S n => (loop_body ;;; (_ <- pre_incr ;; for_loop n)) s
    end
  else Ok tt s.

End Run.

(** The state on entry: the globals as they stand, [i = 0], [argv] live. *)
Definition entry (g : globals) : pstate :=
  {| glob := g; i := 0; argv_freed := false |}.

(** [ParseCommandLineArguments()], run on the token array that
    [CommandLineToArgvW] produced. Every iteration advances [i], so
    [argc] iterations of fuel are enough. *)
Definition ParseCommandLineArguments (argv : list wstring) (g : globals)
  : result unit :=
  for_loop argv (argc argv) (entry g).

(** The tokens that take a value. *)
Definition is_value_flag (t : wstring) : bool :=
  (wcscmp t (L "-w") =? 0) || (wcscmp t (L "--width") =? 0)
  || (wcscmp t (L "-h") =? 0) || (wcscmp t (L "--height") =? 0).

Definition is_warp_flag (t : wstring) : bool :=
  (wcscmp t (L "-warp") =? 0) || (wcscmp t (L "--warp") =? 0).

Definition recognized (t : wstring) : bool :=
  is_value_flag t || is_warp_flag t.

(** The globals a run leaves behind, where it stopped. *)
Definition final_globals (r : result unit) : option globals :=
  match r with
  | Ok _ s | Err _ s => Some (glob s)
  | OutOfFuel => None
  end.

(** The state after [g_ClientWidth = wcstol(argv[++i], nullptr, 10)] read
    the token [v]. *)
Definition after_width (v : wstring) (s : pstate) : pstate :=
  {| glob := {| g_UseWarp := g_UseWarp (glob s);
                g_ClientWidth := Int.to_uint32 (wcstol v);
                g_ClientHeight := g_ClientHeight (glob s) |};
     i := S (i s);
     argv_freed := argv_freed s |}.

End Parser.

(** ** The Win32 / DXGI bootstrap *)

Module Win32.
Import WChar.

(** Handles ([HWND], [HINSTANCE], [HICON], [HCURSOR], COM interface
    pointers) are opaque numbers; [NULL] is 0. *)
Definition HANDLE := Z.
Definition HRESULT := Z.
Definition ATOM := Z.
Definition NULL : Z := 0.

(** Constants of the Windows SDK headers. *)
Definition SM_CXSCREEN : Z := 0.
Definition SM_CYSCREEN : Z := 1.
Definition WS_OVERLAPPEDWINDOW : Z := 0x00CF0000.
Definition CS_VREDRAW : Z := 0x0001.
Definition CS_HREDRAW : Z := 0x0002.
Definition COLOR_WINDOW : Z := 5.
Definition IDC_ARROW : Z := 32512.
Definition DXGI_CREATE_FACTORY_DEBUG : Z := 0x01.
Definition sizeof_WNDCLASSEX : Z := 80.

(** [winerror.h]: [#define FAILED(hr) (((HRESULT)(hr)) < 0)]. *)
Definition FAILED (hr : Z) : bool := Int.to_int32 hr <? 0.

Record RECT := mkRECT { left : Z; top : Z; right : Z; bottom : Z }.

Inductive wndproc := WndProc.

Record WNDCLASSEXW := mkWNDCLASSEXW {
  cbSize : Z;
  style : Z;
  lpfnWndProc : wndproc;
  cbClsExtra : Z;
  cbWndExtra : Z;
  hInstance : HANDLE;
  hIcon : HANDLE;
  hCursor : HANDLE;
  hbrBackground : HANDLE;
  lpszMenuName : Z;
  lpszClassName : wstring;
  hIconSm : HANDLE
}.

(** The twelve arguments of [CreateWindowExW], in order. *)
Record CREATESTRUCT := mkCREATESTRUCT {
  dwExStyle : Z;
  lpClassName : wstring;
  lpWindowName : wstring;
  dwStyle : Z;
  X : Z;
  Y : Z;
  nWidth : Z;
  nHeight : Z;
  hWndParent : HANDLE;
  hMenu : HANDLE;
  hInst : HANDLE;
  lpParam : Z
}.

(** The platform calls, indexed by the type of what they hand back. A call
    with an [HRESULT] and an out-pointer hands back both. [EnumAdapters]
    and [EnumAdapters1] are the factory's enumeration of physical
    adapters. *)
Inductive call : Type -> Type :=
| GetSystemMetrics (nIndex : Z) : call Z
| AdjustWindowRect (lpRect : RECT) (style : Z) (bMenu : bool)
    : call (bool * RECT)
| CreateWindowExW (cs : CREATESTRUCT) : call HANDLE
| LoadIconW (hInstance : HANDLE) (lpIconName : Z) : call HANDLE
| LoadCursorW (hInstance : HANDLE) (lpCursorName : Z) : call HANDLE
| RegisterClassExW (wc : WNDCLASSEXW) : call ATOM
| CreateDXGIFactory2 (Flags : Z) : call (HRESULT * HANDLE)
| EnumWarpAdapter (factory : HANDLE) : call (HRESULT * HANDLE)
| EnumAdapters (factory : HANDLE) (Adapter : Z) : call (HRESULT * HANDLE)
| EnumAdapters1 (factory : HANDLE) (Adapter : Z) : call (HRESULT * HANDLE)
| As_IDXGIAdapter4 (p : HANDLE) : call (HRESULT * HANDLE).

(** [std::exception()], default constructed: it carries nothing. *)
Inductive exception := std_exception.

(** A program: it finishes with a value, throws, aborts on a failed
    [assert], or issues a platform call and continues with the answer. *)
Inductive prog (A : Type) : Type :=
| Pure (a : A)
| Throw (e : exception)
| Abort
| Vis (T : Type) (c : call T) (k : T -> prog A).
Arguments Pure {A}. Arguments Throw {A}. Arguments Abort {A}.
Arguments Vis {A T}.

Fixpoint bind {A B} (p : prog A) (f : A -> prog B) : prog B :=
  match p with
  | Pure a => f a
  | Throw e => Throw e
  | Abort => Abort
  | Vis c k => Vis c (fun x => bind (k x) f)
  end.

Definition invoke {T} (c : call T) : prog T := Vis c Pure.

#[local] Notation "x <- m ;; k" := (bind m (fun x => k))
  (at level 100, m at next level, right associativity).
#[local] Notation "m ;;; k" := (bind m (fun _ => k))
  (at level 100, right associativity).

(** How the body of a function with a result type ends: at a [return]
    with a value, or by running off its closing brace. *)
Inductive fn_exit (R : Type) :=
| Return (r : R)
| EndOfBody.
Arguments Return {R}. Arguments EndOfBody {R}.

(** *** Helpers.h *)

Definition ThrowIfFailed (hr : HRESULT) : prog unit :=
  if FAILED hr then Throw std_exception else Pure tt.

(** *** main.cpp *)

(** [atom] is the function-local static: [None] until its initialiser has
    run. [NDEBUG] compiles [assert] away. *)
Definition RegisterWindowClass (NDEBUG : bool)
    (hInst : HANDLE) (windowClassName : wstring)
    (atom : option ATOM) : prog (option ATOM) :=
  icon <- invoke (LoadIconW hInst NULL) ;;
  cursor <- invoke (LoadCursorW hInst IDC_ARROW) ;;
  iconSm <- invoke (LoadIconW hInst NULL) ;;
  let windowClass :=
    {| cbSize := sizeof_WNDCLASSEX;
       style := Z.lor CS_HREDRAW CS_VREDRAW;
       lpfnWndProc := WndProc;
       cbClsExtra := 0;
       cbWndExtra := 0;
       hInstance := hInst;
       hIcon := icon;
       hCursor := cursor;
       hbrBackground := COLOR_WINDOW + 1;
       lpszMenuName := NULL;
       lpszClassName := windowClassName;
       hIconSm := iconSm |} in
  a <- match atom with
       | Some a => Pure a
       | None => invoke (RegisterClassExW windowClass)
       end ;;
  if NDEBUG || (0 <? a) then Pure (Some a) else Abort.

Definition CreateWindow (windowClassName : wstring) (hInst : HANDLE)
    (windowTitle : wstring) (width height : Z) : prog (fn_exit HANDLE) :=
  screenWidth <- invoke (GetSystemMetrics SM_CXSCREEN) ;;
  screenHeight <- invoke (GetSystemMetrics SM_CYSCREEN) ;;
  let windowRect :=
    {| left := 0; top := 0;
       right := Int.to_int32 width; bottom := Int.to_int32 height |} in
  adjusted <-
      invoke (AdjustWindowRect windowRect WS_OVERLAPPEDWINDOW false) ;;
  let windowRect := snd adjusted in
  let windowWidth := Int.sub32 (right windowRect) (left windowRect) in
  let windowHeight := Int.sub32 (bottom windowRect) (top windowRect) in
  let windowX := Z.max 0 (Int.div32 (Int.sub32 screenWidth windowWidth) 2) in
  let windowY := Z.max 0 (Int.div32 (Int.sub32 screenHeight windowHeight) 2) in
  hWnd <- invoke (CreateWindowExW
    {| dwExStyle := NULL;
       lpClassName := windowClassName;
       lpWindowName := windowTitle;
       dwStyle := WS_OVERLAPPEDWINDOW;
       X := windowX;
       Y := windowY;
       nWidth := windowWidth;
       nHeight := windowHeight;
       hWndParent := NULL;
       hMenu := NULL;
       hInst := hInst;
       lpParam := NULL |}) ;;
  Pure EndOfBody.

Definition GetAdapter (_DEBUG : bool) (useWarp : bool)
  : prog (fn_exit HANDLE) :=
  let createFactoryFlags := if _DEBUG then DXGI_CREATE_FACTORY_DEBUG else 0 in
  created <- invoke (CreateDXGIFactory2 createFactoryFlags) ;;
  let '(hr, dxgiFactory) := created in
  ThrowIfFailed hr ;;;
  if useWarp then
    warp <- invoke (EnumWarpAdapter dxgiFactory) ;;
    let '(hr1, dxgiAdapter1) := warp in
    ThrowIfFailed hr1 ;;;
    cast <- invoke (As_IDXGIAdapter4 dxgiAdapter1) ;;
    let '(hr4, dxgiAdapter4) := cast in
    ThrowIfFailed hr4 ;;;
    Pure EndOfBody
  else
    Pure EndOfBody.

(** *** Running a program against an operating system

    The system is any state with any answer to every call. A run yields
    the calls issued with their answers, the final system state, and how
    the program ended. *)

Inductive event : Type :=
| Ev (T : Type) (c : call T) (x : T).
Arguments Ev {T}.

Inductive outcome (A : Type) :=
| Finished (a : A)
| Threw (e : exception)
| Aborted.
Arguments Finished {A}. Arguments Threw {A}. Arguments Aborted {A}.

Section Run.
Variable os_state : Type.
Variable os : forall T, call T -> os_state -> T * os_state.

Fixpoint run {A} (p : prog A) (st : os_state)
  : list event * os_state * outcome A :=
  match p with
  | Pure a => ([], st, Finished a)
  | Throw e => ([], st, Threw e)
  | Abort => ([], st, Aborted)
  | Vis c k =>
      let (x, st1) := os _ c st in
      let '(tr, st2, o) := run (k x) st1 in
      (Ev c x :: tr, st2, o)
  end.
End Run.

Definition trace {S A} (r : list event * S * outcome A) : list event :=
  fst (fst r).
Definition final {S A} (r : list event * S * outcome A) : S :=
  snd (fst r).
Definition ending {S A} (r : list event * S * outcome A) : outcome A :=
  snd r.

(** Observations on a trace. *)
Definition registration (e : event) : option WNDCLASSEXW :=
  match e with
  | Ev (RegisterClassExW wc) _ => Some wc
  | _ => None
  end.

Definition created_window (e : event) : option CREATESTRUCT :=
  match e with
  | Ev (CreateWindowExW cs) _ => Some cs
  | _ => None
  end.

Definition is_physical_enumeration (e : event) : bool :=
  match e with
  | Ev (EnumAdapters _ _) _ | Ev (EnumAdapters1 _ _) _ => true
  | _ => false
  end.

Definition is_warp_enumeration (e : event) : bool :=
  match e with
  | Ev (EnumWarpAdapter _) _ => true
  | _ => false
  end.

(** The answer to a [GetSystemMetrics] call, with the index asked for. *)
Definition system_metric (e : event) : option (Z * Z) :=
  match e in event return option (Z * Z) with
  | @Ev T c x =>
      match c in call T0 return T0 -> option (Z * Z) with
      | GetSystemMetrics n => fun v => Some (n, v)
      | _ => fun _ => None
      end x
  end.

(** The [HRESULT] of a call that has one. *)
Definition hresult (e : event) : option HRESULT :=
  match e in event return option HRESULT with
  | @Ev T c x =>
      match c in call T0 return T0 -> option HRESULT with
      | CreateDXGIFactory2 _ | EnumWarpAdapter _ | EnumAdapters _ _
      | EnumAdapters1 _ _ | As_IDXGIAdapter4 _ => fun v => Some (fst v)
      | _ => fun _ => None
      end x
  end.

Definition succeeded (e : event) : bool :=
  match hresult e with
  | Some hr => negb (FAILED hr)
  | None => true
  end.

(** The rectangle given to [AdjustWindowRect] and the one it left. *)
Definition adjustment (e : event) : option (RECT * RECT) :=
  match e in event return option (RECT * RECT) with
  | @Ev T c x =>
      match c in call T0 return T0 -> option (RECT * RECT) with
      | AdjustWindowRect r _ _ => fun v => Some (r, snd v)
      | _ => fun _ => None
      end x
  end.

Definition registrations (tr : list event) : list WNDCLASSEXW :=
  omap registration tr.
Definition created_windows (tr : list event) : list CREATESTRUCT :=
  omap created_window tr.
Definition system_metrics (tr : list event) : list (Z * Z) :=
  omap system_metric tr.
Definition adjustments (tr : list event) : list (RECT * RECT) :=
  omap adjustment tr.

(** *** The documented behaviour of [AdjustWindowRect]

    The window rectangle of a client rectangle lies outside it by the
    extents of the frame the style asks for (borders, caption). *)
Record FRAME := mkFRAME {
  frame_left : Z;
  frame_top : Z;
  frame_right : Z;
  frame_bottom : Z
}.

Definition inflate (f : FRAME) (r : RECT) : RECT :=
  {| left := Int.to_int32 (left r - frame_left f);
     top := Int.to_int32 (top r - frame_top f);
     right := Int.to_int32 (right r + frame_right f);
     bottom := Int.to_int32 (bottom r + frame_bottom f) |}.

(** A system whose overlapped windows without a menu have the frame [f]. *)
Definition adjusts_by {S : Type}
    (os : forall T, call T -> S -> T * S) (f : FRAME) : Prop :=
  forall (st : S) (r : RECT),
    snd (fst (os _ (AdjustWindowRect r WS_OVERLAPPEDWINDOW false) st))
    = inflate f r.

(** The client area of a window of the outer size in [cs] under the
    frame [f]. *)
Definition client_area (f : FRAME) (cs : CREATESTRUCT) : Z * Z :=
  (nWidth cs - (frame_left f + frame_right f),
   nHeight cs - (frame_top f + frame_bottom f)).

(** *** A sample system

    A 1920x1080 display, an 8/31/8/8 frame, class atoms handed out in
    sequence from 0xC000 (the state counts the registered classes), and
    a DXGI runtime with a WARP adapter and no physical adapter. *)
Definition sample_frame : FRAME :=
  {| frame_left := 8; frame_top := 31; frame_right := 8; frame_bottom := 8 |}.

Definition DXGI_ERROR_NOT_FOUND : HRESULT := Int.to_int32 0x887A0002.

Definition sample_os (T : Type) (c : call T) (st : nat) : T * nat :=
  match c in call T0 return T0 * nat with
  | GetSystemMetrics n =>
      (if n =? SM_CXSCREEN then 1920 else if n =? SM_CYSCREEN then 1080 else 0,
       st)
  | AdjustWindowRect r _ _ => ((true, inflate sample_frame r), st)
  | CreateWindowExW _ => (0x00050A2C, st)
  | LoadIconW _ _ => (0x00010003, st)
  | LoadCursorW _ _ => (0x00010005, st)
  | RegisterClassExW _ => (0xC000 + Z.of_nat st, Datatypes.S st)
  | CreateDXGIFactory2 _ => ((0, 0x7000), st)
  | EnumWarpAdapter _ => ((0, 0x7100), st)
  | EnumAdapters _ _ => ((DXGI_ERROR_NOT_FOUND, NULL), st)
  | EnumAdapters1 _ _ => ((DXGI_ERROR_NOT_FOUND, NULL), st)
  | As_IDXGIAdapter4 _ => ((0, 0x7104), st)
  end.

End Win32.

(** ** Ranges of the parser's globals *)

Module ParserInv.
Import WChar Parser.

(** The values a [uint32_t] holds. *)
Definition in_uint32 (z : Z) : Prop := 0 <= z < 2 ^ 32.

Definition globals_in_range (g : globals) : Prop :=
  in_uint32 (g_ClientWidth g) /\ in_uint32 (g_ClientHeight g).

(** A computation keeps a property of the globals when the state it stops
    in, normally or at a fault, has it whenever the state it started in
    had it. *)
Definition keeps {A : Type} (P : globals -> Prop) (m : M A) : Prop :=
  forall s : pstate,
    P (glob s) ->
    match m s with
    | Ok _ s' | Err _ s' => P (glob s')
    | OutOfFuel => True
    end.

End ParserInv.

(** ** More observations on Win32 runs *)

Module Win32Obs.
Import WChar Win32.

(** The atom that a [RegisterClassExW] call handed back. *)
Definition registration_result (e : event) : option ATOM :=
  match e in event return option ATOM with
  | @Ev T c x =>
      match c in call T0 return T0 -> option ATOM with
      | RegisterClassExW _ => fun a => Some a
      | _ => fun _ => None
      end x
  end.

(** The flags a factory was asked for. *)
Definition factory_request (e : event) : option Z :=
  match e with
  | Ev (CreateDXGIFactory2 Flags) _ => Some Flags
  | _ => None
  end.

Definition registration_results (tr : list event) : list ATOM :=
  omap registration_result tr.
Definition factory_requests (tr : list event) : list Z :=
  omap factory_request tr.

(** The sample system with an [AdjustWindowRect] that fails: it answers
    [FALSE] and leaves the rectangle alone. *)
Definition unadjusting_os (T : Type) (c : call T) (st : nat) : T * nat :=
  match c in call T0 return T0 * nat with
  | AdjustWindowRect r _ _ => ((false, r), st)
  | c' => sample_os _ c' st
  end.

End Win32Obs.

(** ** The debug layer *)

Module DebugLayer.
Import Win32.

(** The Direct3D 12 calls of [EnableDebugLayer]: the query for the debug
    interface, and the method of that interface. *)
Inductive d3d12_call : Type -> Type :=
| D3D12GetDebugInterface : d3d12_call (HRESULT * HANDLE)
| ID3D12Debug_EnableDebugLayer (debugInterface : HANDLE) : d3d12_call unit.

(** Programs over the calls of [Win32] and these two. *)
Inductive dprog (A : Type) : Type :=
| DPure (a : A)
| DThrow (e : exception)
| DAbort
| DVis (T : Type) (c : call T + d3d12_call T) (k : T -> dprog A).
Arguments DPure {A}. Arguments DThrow {A}. Arguments DAbort {A}.
Arguments DVis {A T}.

Fixpoint dbind {A B} (p : dprog A) (f : A -> dprog B) : dprog B :=
  match p with
  | DPure a => f a
  | DThrow e => DThrow e
  | DAbort => DAbort
  | DVis c k => DVis c (fun x => dbind (k x) f)
  end.

(** A program of [Win32], as it stands. *)
Fixpoint lift {A} (p : prog A) : dprog A :=
  match p with
  | Pure a => DPure a
  | Throw e => DThrow e
  | Abort => DAbort
  | Vis c k => DVis (inl c) (fun x => lift (k x))
  end.

Definition d3d12 {T} (c : d3d12_call T) : dprog T := DVis (inr c) DPure.

(** [EnableDebugLayer()]; its body is compiled under [_DEBUG] only. *)
Definition EnableDebugLayer (_DEBUG : bool) : dprog unit :=
  if _DEBUG then
    dbind (d3d12 D3D12GetDebugInterface) (fun got =>
    let '(hr, debugInterface) := got in
    dbind (lift (ThrowIfFailed hr)) (fun _ =>
    d3d12 (ID3D12Debug_EnableDebugLayer debugInterface)))
  else DPure tt.

Inductive devent : Type :=
| DEv (T : Type) (c : call T + d3d12_call T) (x : T).
Arguments DEv {T}.

Section Run.
Variable os_state : Type.
Variable os : forall T, call T + d3d12_call T -> os_state -> T * os_state.

Fixpoint drun {A} (p : dprog A) (st : os_state)
  : list devent * os_state * outcome A :=
  match p with
  | DPure a => ([], st, Finished a)
  | DThrow e => ([], st, Threw e)
  | DAbort => ([], st, Aborted)
  | DVis c k =>
      let (x, st1) := os _ c st in
      let '(tr, st2, o) := drun (k x) st1 in
      (DEv c x :: tr, st2, o)
  end.
End Run.

Definition dtrace {S A} (r : list devent * S * outcome A) : list devent :=
  fst (fst r).

(** The interface on which the debug layer was switched on. *)
Definition enabled_layer (e : devent) : option HANDLE :=
  match e with
  | DEv (inr (ID3D12Debug_EnableDebugLayer debugInterface)) _ =>
      Some debugInterface
  | _ => None
  end.

Definition enabled_layers (tr : list devent) : list HANDLE :=
  omap enabled_layer tr.

(** A system for closed examples: the debug interface is there or not,
    as the state says. *)
Definition E_NOINTERFACE : HRESULT := Int.to_int32 0x80004002.

Definition sample_d3d12 (T : Type) (c : call T + d3d12_call T) (sdk : bool)
  : T * bool :=
  match c with
  | inl c0 => (fst (sample_os T c0 0%nat), sdk)
  | inr c1 =>
      match c1 in d3d12_call T0 return T0 * bool with
      | D3D12GetDebugInterface =>
          (if sdk then (0, 0x7200) else (E_NOINTERFACE, NULL), sdk)
      | ID3D12Debug_EnableDebugLayer _ => (tt, sdk)
      end
  end.

End DebugLayer.

(** * Properties *)

(** ** Wide strings *)

Section WCharFacts.
Import WChar.

Lemma wcscmp_refl (s : wstring) : wcscmp s s = 0.
Proof.
  induction s as [|c t IH]; simpl; [reflexivity|].
  rewrite Z.ltb_irrefl. exact IH.
Qed.

Lemma wcscmp_eq (s1 s2 : wstring) : wcscmp s1 s2 = 0 <-> s1 = s2.
Proof.
  split; [|intros ->; apply wcscmp_refl].
  revert s2; induction s1 as [|c1 t1 IH]; intros [|c2 t2]; simpl;
    try discriminate; try reflexivity.
  destruct (c1 <? c2) eqn:H12; [discriminate|].
  destruct (c2 <? c1) eqn:H21; [discriminate|].
  intros H. apply IH in H. subst t2.
  apply Z.ltb_ge in H12, H21. f_equal. lia.
Qed.

Lemma wcscmp_eqb (s1 s2 : wstring) :
  (wcscmp s1 s2 =? 0) = true <-> s1 = s2.
Proof. rewrite Z.eqb_eq. apply wcscmp_eq. Qed.

Example wcstol_800 : wcstol (L "800") = 800.
Proof. reflexivity. Qed.

Example wcstol_not_a_number : wcstol (L "-warp") = 0.
Proof. reflexivity. Qed.

Example wcstol_saturates : wcstol (L " -99999999999") = Int.LONG_MIN.
Proof. reflexivity. Qed.

End WCharFacts.

(** ** The command-line parser *)

Section ParserFacts.
Import WChar Parser.

Ltac unfold_body :=
  unfold loop_body, width_step, height_step, warp_step, is_flag,
    LocalFree, set_width, set_height, set_warp, modify_glob, pre_incr,
    argv_at, get_i, Parser.bind, Parser.ret in *.

(** Once [argv] has been released, the first thing an iteration does is
    read it. *)
Lemma loop_body_freed (argv : list wstring) (s : pstate) :
  argv_freed s = true ->
  loop_body argv s = Err (UseAfterFree (i s)) s.
Proof. intros H. unfold_body. simpl. rewrite H. reflexivity. Qed.

Lemma bind_ok {A B} (m : M A) (k : A -> M B) (s s2 : pstate) (b : B) :
  Parser.bind m k s = Ok b s2 ->
  exists a s1, m s = Ok a s1 /\ k a s1 = Ok b s2.
Proof.
  unfold Parser.bind. destruct (m s) as [a s1| |]; try discriminate.
  intros H. exists a, s1. auto.
Qed.

Lemma argv_at_ok (argv : list wstring) (k : nat) (s s' : pstate) (t : wstring) :
  argv_at argv k s = Ok t s' ->
  s' = s /\ argv_freed s = false /\ argv !! k = Some t.
Proof.
  unfold argv_at. destruct (argv_freed s); [discriminate|].
  destruct (argv !! k); [|discriminate]. intros [= -> ->]. auto.
Qed.

Lemma is_flag_ok (argv : list wstring) (a b : string) (s s' : pstate) (c : bool) :
  is_flag argv a b s = Ok c s' -> s' = s /\ argv_freed s = false.
Proof.
  unfold is_flag. intros H.
  apply bind_ok in H as (k & s1 & [= <- <-] & H).
  apply bind_ok in H as (t & s1 & Ht & H).
  apply argv_at_ok in Ht as (-> & Hlive & _).
  destruct (wcscmp t (L a) =? 0); [injection H as _ <-; auto|].
  apply bind_ok in H as (k' & s2 & [= <- <-] & H).
  apply bind_ok in H as (t' & s2 & Ht' & H).
  apply argv_at_ok in Ht' as (-> & _ & _).
  injection H as _ <-; auto.
Qed.

(** A step that reads a value keeps [argv] live and moves [i] forward by
    at most one. *)
Lemma value_step_ok (argv : list wstring) (a b : string)
    (set : Z -> M unit) (s s' : pstate) :
  (forall v s0 s1, set v s0 = Ok tt s1 ->
                   argv_freed s1 = argv_freed s0 /\ i s1 = i s0) ->
  Parser.bind (is_flag argv a b)
    (fun c => if c then
                Parser.bind pre_incr (fun k =>
                Parser.bind (argv_at argv k) (fun v => set (wcstol v)))
              else Parser.ret tt) s = Ok tt s' ->
  argv_freed s' = false /\ (i s <= i s')%nat.
Proof.
  intros Hset H.
  apply bind_ok in H as (c & s1 & Hc & H).
  apply is_flag_ok in Hc as (-> & Hlive).
  destruct c; [|injection H as <-; auto].
  apply bind_ok in H as (k & s1 & [= <- <-] & H).
  apply bind_ok in H as (v & s2 & Hv & H).
  apply argv_at_ok in Hv as (-> & _ & _).
  apply Hset in H as [Hf Hi]. simpl in *. rewrite Hf, Hi. split; [auto|lia].
Qed.

Lemma modify_glob_ok (f : globals -> globals) (s0 s1 : pstate) :
  modify_glob f s0 = Ok tt s1 ->
  argv_freed s1 = argv_freed s0 /\ i s1 = i s0.
Proof. intros [= <-]. auto. Qed.

(** An iteration that completes has released [argv] and has not moved [i]
    backwards. *)
Lemma loop_body_ok (argv : list wstring) (s s' : pstate) :
  loop_body argv s = Ok tt s' ->
  argv_freed s' = true /\ (i s <= i s')%nat.
Proof.
  unfold loop_body. intros H.
  apply bind_ok in H as ([] & s1 & H1 & H).
  apply bind_ok in H as ([] & s2 & H2 & H).
  apply bind_ok in H as ([] & s3 & H3 & H).
  apply value_step_ok in H1 as [_ Hi1];
    [|intros ? ? ?; apply modify_glob_ok].
  apply value_step_ok in H2 as [_ Hi2];
    [|intros ? ? ?; apply modify_glob_ok].
  unfold warp_step in H3.
  apply bind_ok in H3 as (c & s2' & Hc & H3).
  apply is_flag_ok in Hc as (-> & _).
  assert (i s3 = i s2) as Hi3.
  { destruct c; [apply modify_glob_ok in H3 as [_ ?]; auto|].
    injection H3 as <-; auto. }
  unfold LocalFree in H. destruct (argv_freed s3); [discriminate|].
  injection H as <-. simpl. split; [auto|lia].
Qed.

(** On a token that is no flag, an iteration only releases [argv]. *)
Lemma loop_body_unrecognized (argv : list wstring) (s : pstate) (t : wstring) :
  argv_freed s = false ->
  argv !! i s = Some t ->
  recognized t = false ->
  loop_body argv s =
    Ok tt {| glob := glob s; i := i s; argv_freed := true |}.
Proof.
  intros Hlive Ht Hrec.
  unfold recognized, is_value_flag, is_warp_flag in Hrec.
  rewrite !orb_false_iff in Hrec.
  destruct Hrec as [[[[Hw Hwidth] Hh] Hheight] [Hwarp Hwarp2]].
  unfold_body. simpl. rewrite Hlive, Ht. simpl.
  rewrite Hw, Hlive, Ht. simpl.
  rewrite Hwidth, Hlive, Ht. simpl.
  rewrite Hh, Hlive, Ht. simpl.
  rewrite Hheight, Hlive, Ht. simpl.
  rewrite Hwarp, Hlive, Ht. simpl.
  rewrite Hwarp2, Hlive. reflexivity.
Qed.

(** On a token that takes no value, an iteration at most raises
    [g_UseWarp], stays on the token and releases [argv]. *)
Lemma loop_body_no_value (argv : list wstring) (s : pstate) (t : wstring) :
  argv_freed s = false ->
  argv !! i s = Some t ->
  is_value_flag t = false ->
  loop_body argv s =
    Ok tt {| glob := {| g_UseWarp := g_UseWarp (glob s) || is_warp_flag t;
                        g_ClientWidth := g_ClientWidth (glob s);
                        g_ClientHeight := g_ClientHeight (glob s) |};
             i := i s; argv_freed := true |}.
Proof.
  intros Hlive Ht Hval.
  destruct (recognized t) eqn:Hrec.
  - unfold recognized in Hrec. rewrite Hval in Hrec. simpl in Hrec.
    rewrite Hrec, orb_true_r.
    unfold is_value_flag in Hval. unfold is_warp_flag in Hrec.
    rewrite !orb_false_iff in Hval.
    destruct Hval as [[[Hw Hwidth] Hh] Hheight].
    unfold_body. simpl. rewrite Hlive, Ht. simpl.
    rewrite Hw, Hlive, Ht. simpl.
    rewrite Hwidth, Hlive, Ht. simpl.
    rewrite Hh, Hlive, Ht. simpl.
    rewrite Hheight, Hlive, Ht. simpl.
    destruct (wcscmp t (L "-warp") =? 0) eqn:H1; simpl.
    + rewrite Hlive. reflexivity.
    + rewrite Hlive, Ht. simpl. simpl in Hrec. rewrite Hrec. simpl.
      rewrite Hlive. reflexivity.
  - rewrite (loop_body_unrecognized argv s t Hlive Ht Hrec).
    unfold recognized in Hrec. apply orb_false_iff in Hrec as [_ ->].
    rewrite orb_false_r. destruct (glob s); reflexivity.
Qed.

(** The loop, once [argv] has been released. *)
Lemma for_loop_freed (argv : list wstring) (fuel : nat) (s : pstate) :
  argv_freed s = true ->
  for_loop argv fuel s =
    if (i s <? argc argv)%nat then
      match fuel with
      | O => OutOfFuel
      | S _ => Err (UseAfterFree (i s)) s
      end
    else Ok tt s.
Proof.
  intros H. destruct fuel; simpl; [reflexivity|].
  destruct (i s <? argc argv)%nat; [|reflexivity].
  unfold Parser.bind. rewrite (loop_body_freed argv s H). reflexivity.
Qed.

(** The run on a non-empty array: one iteration, [++i], and the rest of
    the loop. *)
Lemma parse_cons (t : wstring) (rest : list wstring) (g : globals) :
  ParseCommandLineArguments (t :: rest) g =
    match loop_body (t :: rest) (entry g) with
    | Ok _ s1 =>
        for_loop (t :: rest) (length rest)
          {| glob := glob s1; i := S (i s1); argv_freed := argv_freed s1 |}
    | Err f s1 => Err f s1
    | OutOfFuel => OutOfFuel
    end.
Proof.
  unfold ParseCommandLineArguments, argc. simpl. unfold Parser.bind.
  destruct (loop_body (t :: rest) (entry g)); reflexivity.
Qed.

Lemma bind_fuel {A B} (m : M A) (k : A -> M B) (s : pstate) :
  m s <> OutOfFuel ->
  (forall a s1, k a s1 <> OutOfFuel) ->
  Parser.bind m k s <> OutOfFuel.
Proof.
  unfold Parser.bind. intros Hm Hk. destruct (m s); [apply Hk|discriminate|auto].
Qed.

Lemma argv_at_fuel (argv : list wstring) (k : nat) (s : pstate) :
  argv_at argv k s <> OutOfFuel.
Proof.
  unfold argv_at. destruct (argv_freed s); [discriminate|].
  destruct (argv !! k); discriminate.
Qed.

Lemma is_flag_fuel (argv : list wstring) (a b : string) (s : pstate) :
  is_flag argv a b s <> OutOfFuel.
Proof.
  unfold is_flag. apply bind_fuel; [discriminate|]. intros k s1.
  apply bind_fuel; [apply argv_at_fuel|]. intros t s2.
  destruct (wcscmp t (L a) =? 0); [discriminate|].
  apply bind_fuel; [discriminate|]. intros k' s3.
  apply bind_fuel; [apply argv_at_fuel|]. discriminate.
Qed.

Lemma loop_body_fuel (argv : list wstring) (s : pstate) :
  loop_body argv s <> OutOfFuel.
Proof.
  unfold loop_body, width_step, height_step, warp_step.
  apply bind_fuel.
  { apply bind_fuel; [apply is_flag_fuel|]. intros [] s1; [|discriminate].
    apply bind_fuel; [discriminate|]. intros k s2.
    apply bind_fuel; [apply argv_at_fuel|]. discriminate. }
  intros _ s1. apply bind_fuel.
  { apply bind_fuel; [apply is_flag_fuel|]. intros [] s2; [|discriminate].
    apply bind_fuel; [discriminate|]. intros k s3.
    apply bind_fuel; [apply argv_at_fuel|]. discriminate. }
  intros _ s2. apply bind_fuel.
  { apply bind_fuel; [apply is_flag_fuel|]. intros [] s3; discriminate. }
  intros _ s3. unfold LocalFree. destruct (argv_freed s3); discriminate.
Qed.

(** The parser always comes to an end: it returns or reaches a fault. *)
Lemma parse_total (argv : list wstring) (g : globals) :
  ParseCommandLineArguments argv g <> OutOfFuel.
Proof.
  destruct argv as [|t rest]; [discriminate|].
  rewrite parse_cons.
  destruct (loop_body (t :: rest) (entry g)) as [[] s1| |] eqn:Hb;
    [|discriminate|destruct (loop_body_fuel _ _ Hb)].
  apply loop_body_ok in Hb as [Hfreed Hi].
  rewrite for_loop_freed by exact Hfreed. simpl.
  destruct (Nat.ltb_spec (S (i s1)) (S (argc rest))) as [Hlt|Hge];
    [|discriminate].
  destruct rest as [|t' rest']; simpl; [|discriminate].
  unfold argc in Hlt. simpl in Hlt. lia.
Qed.

(** With no tokens at all the loop does not run. *)
Lemma parse_no_arguments (g : globals) :
  ParseCommandLineArguments [] g = Ok tt (entry g).
Proof. reflexivity. Qed.

(** Tokens that are no flags leave the three globals as they were. *)
Lemma parse_unrecognized (argv : list wstring) (g : globals) :
  Forall (fun t => recognized t = false) argv ->
  final_globals (ParseCommandLineArguments argv g) = Some g.
Proof.
  intros Hall. destruct argv as [|t rest]; [reflexivity|].
  rewrite parse_cons.
  rewrite (loop_body_unrecognized (t :: rest) (entry g) t);
    [|reflexivity|reflexivity|exact (Forall_inv Hall)].
  rewrite for_loop_freed by reflexivity. simpl.
  destruct rest as [|t' rest']; reflexivity.
Qed.

Example parse_program_name_only :
  ParseCommandLineArguments [L "DirectX12Intro.exe"] defaults =
    Ok tt {| glob := defaults; i := 1; argv_freed := true |}.
Proof. reflexivity. Qed.

(** C1, evaluated on the code: on the tokens [-w 800 -h 600 -warp] the
    first iteration stores the width 800 and releases [argv]; the second
    iteration then reads [argv[2]] from the released block, so the run
    stops in undefined behaviour with the height still 720 and
    [g_UseWarp] still false. With the program name in front, as
    [CommandLineToArgvW] delivers it, the same happens at [argv[1]] before
    any value is stored. *)
Theorem C1_parse_stops_at_released_argv :
  ParseCommandLineArguments
    (List.map L ["-w"; "800"; "-h"; "600"; "-warp"]%string) defaults =
    Err (UseAfterFree 2)
      {| glob := {| g_UseWarp := false; g_ClientWidth := 800;
                    g_ClientHeight := 720 |};
         i := 2; argv_freed := true |}
  /\ ParseCommandLineArguments
    (List.map L ["DirectX12Intro.exe"; "-w"; "800"; "-h"; "600"; "-warp"]%string)
    defaults =
    Err (UseAfterFree 1) {| glob := defaults; i := 1; argv_freed := true |}.
Proof. split; reflexivity. Qed.

(** C2, as stated, fails: [-w 800] has two tokens, the loop is over after
    one iteration, which consumes both tokens and releases [argv] once, and
    the run ends without touching the released block. *)
Lemma C2_two_tokens_one_iteration :
  let argv := List.map L ["-w"; "800"]%string in
  let done := {| glob := {| g_UseWarp := false; g_ClientWidth := 800;
                            g_ClientHeight := 720 |};
                 i := 2; argv_freed := true |} in
  length argv = 2%nat
  /\ for_loop argv 1 (entry defaults) = Ok tt done
  /\ ParseCommandLineArguments argv defaults =
       Ok tt {| glob := {| g_UseWarp := false; g_ClientWidth := 800;
                           g_ClientHeight := 720 |};
                i := 2; argv_freed := true |}
  /\ ~ (exists k s,
          ParseCommandLineArguments argv defaults = Err (UseAfterFree k) s).
Proof.
  simpl. split; [reflexivity|]. split; [reflexivity|]. split; [reflexivity|].
  intros (k & s & H). discriminate H.
Qed.

(** C3, evaluated on the code: with a value-taking flag as the only
    token, [argv[++i]] reads index 1 of an array of one element. *)
Theorem C3_trailing_value_flag_reads_past_end :
  Forall (fun flag =>
            ParseCommandLineArguments [L flag] defaults =
              Err (OutOfBounds (argc [L flag]))
                {| glob := defaults; i := 1; argv_freed := false |})
         ["-w"; "--width"; "-h"; "--height"]%string.
Proof. repeat constructor. Qed.

(** The width branch on a width flag followed by the token [v]. *)
Lemma width_step_consumes (argv : list wstring) (s : pstate) (t v : wstring) :
  argv_freed s = false ->
  argv !! i s = Some t ->
  t = L "-w" \/ t = L "--width" ->
  argv !! S (i s) = Some v ->
  width_step argv s = Ok tt (after_width v s).
Proof.
  intros Hlive Ht Hflag Hv.
  unfold width_step, is_flag, set_width, modify_glob, pre_incr, argv_at,
    get_i, Parser.bind, Parser.ret, after_width.
  rewrite Hlive, Ht.
  destruct Hflag as [-> | ->]; simpl; rewrite Hlive.
  - rewrite Hv. reflexivity.
  - rewrite Ht. simpl. rewrite Hlive, Hv. reflexivity.
Qed.

Lemma is_warp_flag_cases (v : wstring) :
  is_warp_flag v = true -> v = L "-warp" \/ v = L "--warp".
Proof.
  unfold is_warp_flag. intros H. apply orb_true_iff in H as [H | H];
    apply wcscmp_eqb in H; auto.
Qed.

End ParserFacts.

(** ** The Win32 / DXGI bootstrap *)

Section Win32Facts.
Import WChar Win32.

Lemma to_int32_range (z : Z) : Int.in_int32 (Int.to_int32 z).
Proof.
  unfold Int.in_int32, Int.to_int32, Int.LONG_MIN, Int.LONG_MAX.
  pose proof (Z.mod_pos_bound (z + 2 ^ 31) (2 ^ 32) ltac:(lia)). lia.
Qed.

Lemma to_int32_id (z : Z) : Int.in_int32 z -> Int.to_int32 z = z.
Proof.
  unfold Int.in_int32, Int.to_int32, Int.LONG_MIN, Int.LONG_MAX. intros H.
  rewrite Z.mod_small; lia.
Qed.

(** [FAILED] is the sign of the 32-bit code. *)
Lemma FAILED_negative (hr : Z) :
  Int.in_int32 hr -> (FAILED hr = true <-> hr < 0).
Proof.
  intros H. unfold FAILED. rewrite (to_int32_id hr H). apply Z.ltb_lt.
Qed.

Example S_OK_succeeds : FAILED 0 = false.
Proof. reflexivity. Qed.

Example S_FALSE_succeeds : FAILED 1 = false.
Proof. reflexivity. Qed.

Example E_FAIL_fails : FAILED 0x80004005 = true.
Proof. reflexivity. Qed.

(** C4: [ThrowIfFailed] throws exactly when [FAILED(hr)]; what it throws
    is the one value of the exception type, which has no field for a code
    or a message, so two failing codes throw the same thing; on a success
    code it returns without issuing any call or changing the system. *)
Theorem C4_ThrowIfFailed_generic (hr : HRESULT) :
  (ThrowIfFailed hr = Throw std_exception <-> FAILED hr = true)
  /\ (ThrowIfFailed hr = Pure tt <-> FAILED hr = false)
  /\ (forall e : exception, e = std_exception)
  /\ (forall hr' : HRESULT,
        FAILED hr = true -> FAILED hr' = true ->
        ThrowIfFailed hr = ThrowIfFailed hr')
  /\ (forall (S : Type) (os : forall T, call T -> S -> T * S) (st : S),
        run S os (ThrowIfFailed hr) st =
          if FAILED hr then ([], st, Threw std_exception)
          else ([], st, Finished tt)).
Proof.
  unfold ThrowIfFailed. repeat split.
  - destruct (FAILED hr); [reflexivity|discriminate].
  - intros ->. reflexivity.
  - destruct (FAILED hr); [discriminate|reflexivity].
  - intros ->. reflexivity.
  - intros []. reflexivity.
  - intros hr' -> ->. reflexivity.
  - intros S os st. destruct (FAILED hr); reflexivity.
Qed.

Section AnySystem.
Variable S : Type.
Variable os : forall T, call T -> S -> T * S.

Ltac answer :=
  match goal with
  | |- context [os ?T ?c ?st] =>
      let x := fresh "x" in
      let st' := fresh "st" in
      let E := fresh "E" in
      destruct (os T c st) as [x st'] eqn:E; simpl
  end.

Ltac settle :=
  simpl; unfold succeeded; simpl;
  repeat match goal with H : FAILED _ = _ |- _ => rewrite H end; simpl.

(** What [CreateWindow] asks of the system, for every system. *)
Lemma CreateWindow_calls (st : S) (cls title : wstring) (hInst : HANDLE)
    (width height : Z) :
  let r := run S os (CreateWindow cls hInst title width height) st in
  exists sw sh cs,
    system_metrics (trace r) = [(SM_CXSCREEN, sw); (SM_CYSCREEN, sh)]
    /\ created_windows (trace r) = [cs]
    /\ ending r = Finished EndOfBody.
Proof.
  unfold CreateWindow, invoke. simpl. repeat answer.
  eexists _, _, _. repeat split.
Qed.

(** On any system, the size handed to [CreateWindowExW] is the extent of
    the rectangle that [AdjustWindowRect] left, whatever that call did to
    [{0, 0, width, height}]. *)
Lemma CreateWindow_size (st : S) (cls title : wstring) (hInst : HANDLE)
    (width height : Z) :
  let r := run S os (CreateWindow cls hInst title width height) st in
  exists adjusted cs,
    adjustments (trace r) =
      [({| left := 0; top := 0; right := Int.to_int32 width;
           bottom := Int.to_int32 height |}, adjusted)]
    /\ created_windows (trace r) = [cs]
    /\ nWidth cs = Int.sub32 (right adjusted) (left adjusted)
    /\ nHeight cs = Int.sub32 (bottom adjusted) (top adjusted).
Proof.
  unfold CreateWindow, invoke. simpl. repeat answer.
  eexists _, _. repeat split.
Qed.

(** How [GetAdapter] ends: at its closing brace when every call
    succeeded, by the throw of [ThrowIfFailed] otherwise. *)
Lemma GetAdapter_ending (st : S) (_DEBUG useWarp : bool) :
  let r := run S os (GetAdapter _DEBUG useWarp) st in
  ending r = if forallb succeeded (trace r)
             then Finished EndOfBody else Threw std_exception.
Proof.
  unfold GetAdapter, invoke, ThrowIfFailed. simpl. answer.
  destruct x as [hr dxgiFactory].
  destruct (FAILED hr) eqn:F; settle; [reflexivity|].
  destruct useWarp; settle; [|reflexivity].
  answer. destruct x as [hr1 dxgiAdapter1].
  destruct (FAILED hr1) eqn:F1; settle; [reflexivity|].
  answer. destruct x as [hr4 dxgiAdapter4].
  destruct (FAILED hr4) eqn:F4; settle; reflexivity.
Qed.

(** C5: neither function has a [return] with a value. [CreateWindow]
    creates the window and then runs off its closing brace on every
    path; [GetAdapter] never returns an adapter: on both values of
    [useWarp] it runs off its closing brace, unless a failing call made
    [ThrowIfFailed] throw first. *)
Theorem C5_no_value_returned :
  (forall (st : S) (cls title : wstring) (hInst : HANDLE) (width height : Z),
      let r := run S os (CreateWindow cls hInst title width height) st in
      ending r = Finished EndOfBody
      /\ length (created_windows (trace r)) = 1%nat)
  /\ (forall (st : S) (_DEBUG useWarp : bool),
        let r := run S os (GetAdapter _DEBUG useWarp) st in
        (forall adapter : HANDLE, ending r <> Finished (Return adapter))
        /\ (ending r = Finished EndOfBody \/ ending r = Threw std_exception)
        /\ (forallb succeeded (trace r) = true ->
            ending r = Finished EndOfBody)).
Proof.
  split.
  - intros st cls title hInst width height r.
    destruct (CreateWindow_calls st cls title hInst width height)
      as (sw & sh & cs & _ & Hcs & Hend).
    fold r in Hcs, Hend. rewrite Hcs. auto.
  - intros st dbg useWarp r.
    pose proof (GetAdapter_ending st dbg useWarp) as H. fold r in H.
    rewrite H. destruct (forallb succeeded (trace r));
      repeat split; auto; discriminate.
Qed.

(** C8: with [useWarp] set, [GetAdapter] issues no enumeration of
    physical adapters; once the factory exists it asks for the WARP
    adapter, once. *)
Theorem C8_warp_path_never_enumerates_hardware (st : S) (_DEBUG : bool) :
  let r := run S os (GetAdapter _DEBUG true) st in
  let flags := if _DEBUG then DXGI_CREATE_FACTORY_DEBUG else 0 in
  let hr := fst (fst (os _ (CreateDXGIFactory2 flags) st)) in
  List.filter is_physical_enumeration (trace r) = []
  /\ length (List.filter is_warp_enumeration (trace r)) =
       (if FAILED hr then 0 else 1)%nat.
Proof.
  unfold GetAdapter, invoke, ThrowIfFailed. simpl. answer.
  destruct x as [hr dxgiFactory]. simpl.
  destruct (FAILED hr); simpl; [auto|].
  answer. destruct x as [hr1 dxgiAdapter1].
  destruct (FAILED hr1); simpl; [auto|].
  answer. destruct x as [hr4 dxgiAdapter4].
  destruct (FAILED hr4); simpl; auto.
Qed.

(** C6: the origin handed to [CreateWindowExW] is
    [max(0, (screen - window) / 2)] in each direction, so it is never
    negative, and it is 0 in a direction in which the adjusted window
    is larger than the screen. *)
Theorem C6_window_origin_clamped (st : S) (cls title : wstring)
    (hInst : HANDLE) (width height sw sh : Z) (cs : CREATESTRUCT) :
  let r := run S os (CreateWindow cls hInst title width height) st in
  system_metrics (trace r) = [(SM_CXSCREEN, sw); (SM_CYSCREEN, sh)] ->
  created_windows (trace r) = [cs] ->
  0 <= sw <= Int.LONG_MAX ->
  0 <= sh <= Int.LONG_MAX ->
  X cs = Z.max 0 (Int.div32 (Int.sub32 sw (nWidth cs)) 2)
  /\ Y cs = Z.max 0 (Int.div32 (Int.sub32 sh (nHeight cs)) 2)
  /\ 0 <= X cs
  /\ 0 <= Y cs
  /\ (sw < nWidth cs -> X cs = 0)
  /\ (sh < nHeight cs -> Y cs = 0)
  /\ (0 <= nWidth cs -> X cs = Z.max 0 (Z.quot (sw - nWidth cs) 2))
  /\ (0 <= nHeight cs -> Y cs = Z.max 0 (Z.quot (sh - nHeight cs) 2)).
Proof.
  unfold CreateWindow, invoke. simpl. repeat answer.
  intros [= -> ->] [= <-] Hsw Hsh. simpl.
  set (ww := Int.sub32 (right (snd x1)) (left (snd x1))).
  set (wh := Int.sub32 (bottom (snd x1)) (top (snd x1))).
  pose proof (to_int32_range (right (snd x1) - left (snd x1))) as Hww.
  pose proof (to_int32_range (bottom (snd x1) - top (snd x1))) as Hwh.
  fold (Int.sub32 (right (snd x1)) (left (snd x1))) in Hww.
  fold (Int.sub32 (bottom (snd x1)) (top (snd x1))) in Hwh.
  fold ww in Hww. fold wh in Hwh.
  unfold Int.in_int32, Int.LONG_MIN, Int.LONG_MAX in *.
  assert (forall a b, 0 <= a <= 2 ^ 31 - 1 ->
                      - 2 ^ 31 <= b <= 2 ^ 31 - 1 ->
                      (a < b -> Z.max 0 (Int.div32 (Int.sub32 a b) 2) = 0)
                      /\ (0 <= b -> Int.div32 (Int.sub32 a b) 2
                                    = Z.quot (a - b) 2)) as Hclamp.
  { intros a b Ha Hb. unfold Int.div32, Int.sub32. split.
    - intros Hlt.
      rewrite (to_int32_id (a - b))
        by (unfold Int.in_int32, Int.LONG_MIN, Int.LONG_MAX; lia).
      assert (- 2 ^ 31 <= Z.quot (a - b) 2 <= 0) as Hq.
      { split.
        - apply Z.quot_le_lower_bound; lia.
        - apply Z.quot_le_upper_bound; lia. }
      rewrite to_int32_id
        by (unfold Int.in_int32, Int.LONG_MIN, Int.LONG_MAX; lia).
      lia.
    - intros Hnn.
      rewrite (to_int32_id (a - b))
        by (unfold Int.in_int32, Int.LONG_MIN, Int.LONG_MAX; lia).
      apply to_int32_id.
      unfold Int.in_int32, Int.LONG_MIN, Int.LONG_MAX.
      destruct (Z.le_gt_cases 0 (a - b)).
      + pose proof (Z.quot_pos (a - b) 2 ltac:(lia) ltac:(lia)).
        pose proof (Z.quot_le_upper_bound (a - b) 2 (2 ^ 31 - 1)
                      ltac:(lia) ltac:(lia)). lia.
      + pose proof (Z.quot_le_lower_bound (a - b) 2 (- 2 ^ 31)
                      ltac:(lia) ltac:(lia)).
        pose proof (Z.quot_le_upper_bound (a - b) 2 0
                      ltac:(lia) ltac:(lia)). lia. }
  destruct (Hclamp sw ww Hsw Hww) as [HX HX'].
  destruct (Hclamp sh wh Hsh Hwh) as [HY HY'].
  repeat split; try lia; auto;
    intros H; rewrite ?(HX' H), ?(HY' H); reflexivity.
Qed.

(** C7: on a system whose overlapped windows have the frame [f], and
    for a positive requested size that fits a [LONG] together with the
    frame, the window rectangle computed by [CreateWindow] measures the
    requested width and height plus exactly the frame, so the client
    area of the window is the requested one. *)
Theorem C7_client_area_exact (st : S) (cls title : wstring)
    (hInst : HANDLE) (width height : Z) (f : FRAME) (cs : CREATESTRUCT) :
  let r := run S os (CreateWindow cls hInst title width height) st in
  adjusts_by os f ->
  0 <= frame_left f -> 0 <= frame_top f ->
  0 <= frame_right f -> 0 <= frame_bottom f ->
  0 < width -> 0 < height ->
  width + (frame_left f + frame_right f) <= Int.LONG_MAX ->
  height + (frame_top f + frame_bottom f) <= Int.LONG_MAX ->
  created_windows (trace r) = [cs] ->
  nWidth cs = width + (frame_left f + frame_right f)
  /\ nHeight cs = height + (frame_top f + frame_bottom f)
  /\ client_area f cs = (width, height).
Proof.
  intros r Hadj Hl Ht Hr Hb Hw Hh Hwmax Hhmax. subst r.
  unfold CreateWindow, invoke. simpl. repeat answer.
  intros [= <-]. unfold client_area. simpl.
  pose proof (Hadj st1
    {| left := 0; top := 0;
       right := Int.to_int32 width; bottom := Int.to_int32 height |}) as Hx.
  rewrite E1 in Hx. simpl in Hx. rewrite Hx. unfold inflate. simpl.
  unfold Int.LONG_MAX in *.
  assert (forall z, - 2 ^ 31 <= z <= 2 ^ 31 - 1 -> Int.to_int32 z = z) as Hid.
  { intros z Hz. apply to_int32_id.
    unfold Int.in_int32, Int.LONG_MIN, Int.LONG_MAX. lia. }
  unfold Int.sub32.
  rewrite (Hid width), (Hid height) by lia.
  rewrite (Hid (0 - frame_left f)), (Hid (0 - frame_top f)) by lia.
  rewrite (Hid (width + frame_right f)), (Hid (height + frame_bottom f))
    by lia.
  rewrite !Hid by lia.
  repeat split; try f_equal; lia.
Qed.

(** An invocation that finds the static initialised registers nothing
    and passes or fails the assertion on the stored atom alone. *)
Lemma RegisterWindowClass_initialised (st : S) (NDEBUG : bool)
    (hInst : HANDLE) (name : wstring) (a : ATOM) :
  let r := run S os (RegisterWindowClass NDEBUG hInst name (Some a)) st in
  registrations (trace r) = []
  /\ ending r = if NDEBUG || (0 <? a) then Finished (Some a) else Aborted.
Proof.
  unfold RegisterWindowClass, invoke. simpl. repeat answer.
  destruct (NDEBUG || (0 <? a)); auto.
Qed.

(** The first invocation registers the class it was given, once. *)
Lemma RegisterWindowClass_first (st : S) (NDEBUG : bool)
    (hInst : HANDLE) (name : wstring) :
  let r := run S os (RegisterWindowClass NDEBUG hInst name None) st in
  exists wc a,
    registrations (trace r) = [wc]
    /\ lpszClassName wc = name
    /\ ending r = if NDEBUG || (0 <? a) then Finished (Some a) else Aborted.
Proof.
  unfold RegisterWindowClass, invoke. simpl. repeat answer.
  eexists _, x2. destruct (NDEBUG || (0 <? x2)) eqn:Hassert;
    simpl; rewrite ?Hassert; auto.
Qed.

(** C10: the registration sits in the initialiser of a function-local
    static, so it runs in the first invocation only. A second
    invocation, whatever its arguments, issues no registration, finds the
    atom of the first, passes the same assertion and leaves the static as
    it was: two invocations register what one does. *)
Theorem C10_RegisterWindowClass_idempotent (st : S) (NDEBUG : bool)
    (hInst1 hInst2 : HANDLE) (name1 name2 : wstring)
    (atom1 : option ATOM) :
  let r1 := run S os (RegisterWindowClass NDEBUG hInst1 name1 None) st in
  ending r1 = Finished atom1 ->
  let r2 :=
    run S os (RegisterWindowClass NDEBUG hInst2 name2 atom1) (final r1) in
  length (registrations (trace r1)) = 1%nat
  /\ registrations (trace r2) = []
  /\ ending r2 = Finished atom1
  /\ registrations (trace r1 ++ trace r2) = registrations (trace r1).
Proof.
  intros r1 Hend r2. subst r2.
  destruct (RegisterWindowClass_first st NDEBUG hInst1 name1)
    as (wc & a & Hreg & _ & Hend1).
  fold r1 in Hreg, Hend1. rewrite Hend in Hend1.
  destruct (NDEBUG || (0 <? a)) eqn:Hassert; [|discriminate].
  injection Hend1 as ->.
  destruct (RegisterWindowClass_initialised (final r1) NDEBUG hInst2 name2 a)
    as [Hreg2 Hend2].
  rewrite Hassert in Hend2.
  split; [rewrite Hreg; reflexivity|].
  split; [exact Hreg2|]. split; [exact Hend2|].
  unfold registrations in *. rewrite omap_app.
  etransitivity; [apply f_equal, Hreg2|]. apply app_nil_r.
Qed.

End AnySystem.

(** *** On the sample system *)

Lemma sample_os_adjusts : adjusts_by sample_os sample_frame.
Proof. intros st r. reflexivity. Qed.

(** A 4000x3000 client area does not fit the 1920x1080 display. *)
Lemma C6_window_origin_clamped_witness :
  let r := run nat sample_os
             (CreateWindow (L "DX12WindowClass") 0x400000
                (L "Learning DirectX 12") 4000 3000) 0%nat in
  match created_windows (trace r) with
  | [cs] => X cs = 0 /\ Y cs = 0 /\ nWidth cs = 4016 /\ nHeight cs = 3039
  | _ => False
  end.
Proof.
  simpl.
  pose proof (C6_window_origin_clamped nat sample_os 0%nat
                (L "DX12WindowClass") (L "Learning DirectX 12") 0x400000
                4000 3000 1920 1080 _ eq_refl eq_refl) as H.
  simpl in H.
  destruct H as (_ & _ & _ & _ & HX & HY & _ & _);
    [unfold Int.LONG_MAX; lia | unfold Int.LONG_MAX; lia |].
  split; [apply HX; reflexivity|].
  split; [apply HY; reflexivity|].
  split; reflexivity.
Defined.

(** The default 1280x720 client area under the 8/31/8/8 frame. *)
Lemma C7_client_area_exact_witness :
  let r := run nat sample_os
             (CreateWindow (L "DX12WindowClass") 0x400000
                (L "Learning DirectX 12") 1280 720) 0%nat in
  match created_windows (trace r) with
  | [cs] => nWidth cs = 1296 /\ nHeight cs = 759
            /\ client_area sample_frame cs = (1280, 720)
  | _ => False
  end.
Proof.
  simpl.
  refine (C7_client_area_exact nat sample_os 0%nat
            (L "DX12WindowClass") (L "Learning DirectX 12") 0x400000
            1280 720 sample_frame _ sample_os_adjusts _ _ _ _ _ _ _ _ eq_refl);
    simpl; unfold Int.LONG_MAX; lia.
Defined.

(** Two invocations on the sample system, with different class names. *)
Lemma C10_RegisterWindowClass_idempotent_witness :
  let r1 := run nat sample_os
              (RegisterWindowClass false 0x400000 (L "DX12WindowClass") None)
              0%nat in
  let r2 := run nat sample_os
              (RegisterWindowClass false 0x400000 (L "OtherClass")
                 (Some 0xC000)) (final r1) in
  length (registrations (trace r1)) = 1%nat
  /\ registrations (trace r2) = []
  /\ ending r2 = Finished (Some 0xC000)
  /\ registrations (trace r1 ++ trace r2) = registrations (trace r1).
Proof.
  exact (C10_RegisterWindowClass_idempotent nat sample_os 0%nat false
           0x400000 0x400000 (L "DX12WindowClass") (L "OtherClass")
           (Some 0xC000) eq_refl).
Defined.

End Win32Facts.

(** ** More on the command-line parser *)

Section ParserCoverage.
Import WChar Parser ParserInv.

(** The globals a run leaves behind are those its first iteration leaves
    behind. *)
Lemma parse_final_globals (t : wstring) (rest : list wstring) (g : globals) :
  final_globals (ParseCommandLineArguments (t :: rest) g) =
    final_globals (loop_body (t :: rest) (entry g)).
Proof.
  rewrite parse_cons.
  destruct (loop_body (t :: rest) (entry g)) as [[] s1|f s1|] eqn:Hb;
    [|reflexivity|reflexivity].
  apply loop_body_ok in Hb as [Hfreed _].
  rewrite for_loop_freed by exact Hfreed. simpl.
  destruct rest as [|t' rest']; simpl.
  - destruct (i s1); reflexivity.
  - destruct (S (i s1) <? S (S (argc rest')))%nat; reflexivity.
Qed.

(** *** The stored values stay in the range of [uint32_t] *)

Lemma keeps_bind {A B} (P : globals -> Prop) (m : M A) (k : A -> M B) :
  keeps P m -> (forall a, keeps P (k a)) -> keeps P (Parser.bind m k).
Proof.
  intros Hm Hk s Hs. unfold Parser.bind. specialize (Hm s Hs).
  destruct (m s) as [a s1|f s1|]; [apply (Hk a s1 Hm)|exact Hm|exact I].
Qed.

Lemma keeps_argv_at (P : globals -> Prop) (argv : list wstring) (k : nat) :
  keeps P (argv_at argv k).
Proof.
  intros s Hs. unfold argv_at. destruct (argv_freed s); [exact Hs|].
  destruct (argv !! k); exact Hs.
Qed.

Lemma keeps_is_flag (P : globals -> Prop) (argv : list wstring) (a b : string) :
  keeps P (is_flag argv a b).
Proof.
  unfold is_flag. apply keeps_bind; [intros s Hs; exact Hs|]. intros k.
  apply keeps_bind; [apply keeps_argv_at|]. intros t.
  destruct (wcscmp t (L a) =? 0); [intros s Hs; exact Hs|].
  apply keeps_bind; [intros s Hs; exact Hs|]. intros k'.
  apply keeps_bind; [apply keeps_argv_at|]. intros t' s Hs. exact Hs.
Qed.

Lemma to_uint32_range (z : Z) : in_uint32 (Int.to_uint32 z).
Proof. unfold in_uint32, Int.to_uint32. apply Z.mod_pos_bound. lia. Qed.

Lemma keeps_loop_body (argv : list wstring) :
  keeps globals_in_range (loop_body argv).
Proof.
  unfold loop_body, width_step, height_step, warp_step.
  apply keeps_bind.
  { apply keeps_bind; [apply keeps_is_flag|]. intros [];
      [|intros s Hs; exact Hs].
    apply keeps_bind; [intros s Hs; exact Hs|]. intros k.
    apply keeps_bind; [apply keeps_argv_at|]. intros v s [_ Hh].
    split; [apply to_uint32_range|exact Hh]. }
  intros _. apply keeps_bind.
  { apply keeps_bind; [apply keeps_is_flag|]. intros [];
      [|intros s Hs; exact Hs].
    apply keeps_bind; [intros s Hs; exact Hs|]. intros k.
    apply keeps_bind; [apply keeps_argv_at|]. intros v s [Hw _].
    split; [exact Hw|apply to_uint32_range]. }
  intros _. apply keeps_bind.
  { apply keeps_bind; [apply keeps_is_flag|]. intros [];
      intros s Hs; exact Hs. }
  intros _ s Hs. unfold LocalFree. destruct (argv_freed s); exact Hs.
Qed.

(** X2: whatever the tokens, a width and a height that fit [uint32_t]
    before the run still do where the run stops, normally or at a fault:
    every store goes through the conversion to [uint32_t]. *)
Theorem parse_keeps_range (argv : list wstring) (g g' : globals) :
  globals_in_range g ->
  final_globals (ParseCommandLineArguments argv g) = Some g' ->
  globals_in_range g'.
Proof.
  intros Hg Hfinal. destruct argv as [|t rest].
  - injection Hfinal as <-. exact Hg.
  - rewrite parse_final_globals in Hfinal.
    pose proof (keeps_loop_body (t :: rest) (entry g) Hg) as Hk.
    destruct (loop_body (t :: rest) (entry g)) as [a s1|f s1|];
      [| |discriminate]; injection Hfinal as <-; exact Hk.
Qed.

(** A negative width wraps to a value just below 2^32. *)
Lemma parse_keeps_range_witness :
  final_globals
    (ParseCommandLineArguments (List.map L ["-w"; "-1"]%string) defaults) =
    Some {| g_UseWarp := false; g_ClientWidth := 4294967295;
            g_ClientHeight := 720 |}
  /\ globals_in_range {| g_UseWarp := false; g_ClientWidth := 4294967295;
                         g_ClientHeight := 720 |}.
Proof.
  split; [reflexivity|].
  apply (parse_keeps_range (List.map L ["-w"; "-1"]%string) defaults).
  - unfold globals_in_range, in_uint32. simpl. lia.
  - reflexivity.
Defined.

Lemma keeps_warp_loop_body (argv : list wstring) :
  keeps (fun g => g_UseWarp g = true) (loop_body argv).
Proof.
  unfold loop_body, width_step, height_step, warp_step.
  apply keeps_bind.
  { apply keeps_bind; [apply keeps_is_flag|]. intros [];
      [|intros s Hs; exact Hs].
    apply keeps_bind; [intros s Hs; exact Hs|]. intros k.
    apply keeps_bind; [apply keeps_argv_at|]. intros v s Hs. exact Hs. }
  intros _. apply keeps_bind.
  { apply keeps_bind; [apply keeps_is_flag|]. intros [];
      [|intros s Hs; exact Hs].
    apply keeps_bind; [intros s Hs; exact Hs|]. intros k.
    apply keeps_bind; [apply keeps_argv_at|]. intros v s Hs. exact Hs. }
  intros _. apply keeps_bind.
  { apply keeps_bind; [apply keeps_is_flag|]. intros [];
      intros s Hs; [reflexivity|exact Hs]. }
  intros _ s Hs. unfold LocalFree. destruct (argv_freed s); exact Hs.
Qed.

(** X14: the parser only ever switches WARP on. When [g_UseWarp] is set
    before the run it is set where the run stops, whatever the tokens:
    there is no token that clears it. *)
Theorem parse_never_clears_warp (argv : list wstring) (g g' : globals) :
  g_UseWarp g = true ->
  final_globals (ParseCommandLineArguments argv g) = Some g' ->
  g_UseWarp g' = true.
Proof.
  intros Hg Hfinal. destruct argv as [|t rest].
  - injection Hfinal as <-. exact Hg.
  - rewrite parse_final_globals in Hfinal.
    pose proof (keeps_warp_loop_body (t :: rest) (entry g) Hg) as Hk.
    destruct (loop_body (t :: rest) (entry g)) as [a s1|f s1|];
      [| |discriminate]; injection Hfinal as <-; exact Hk.
Qed.

Lemma parse_never_clears_warp_witness :
  let g := {| g_UseWarp := true; g_ClientWidth := 1280;
              g_ClientHeight := 720 |} in
  let g' := {| g_UseWarp := true; g_ClientWidth := 640;
               g_ClientHeight := 720 |} in
  final_globals
    (ParseCommandLineArguments (List.map L ["-w"; "640"]%string) g) = Some g'
  /\ g_UseWarp g' = true.
Proof.
  split; [reflexivity|].
  apply (parse_never_clears_warp (List.map L ["-w"; "640"]%string)
           {| g_UseWarp := true; g_ClientWidth := 1280;
              g_ClientHeight := 720 |}).
  - reflexivity.
  - reflexivity.
Defined.

(** *** Where a run can stop *)

Lemma is_flag_live (argv : list wstring) (a b : string) (s : pstate) :
  argv_freed s = false ->
  (i s < argc argv)%nat ->
  exists c, is_flag argv a b s = Ok c s.
Proof.
  intros Hlive Hlt.
  destruct (lookup_lt_is_Some_2 argv (i s) Hlt) as [t Ht].
  unfold is_flag, get_i, argv_at, Parser.bind, Parser.ret. rewrite Hlive, Ht.
  destruct (wcscmp t (L a) =? 0); [eauto|]. rewrite Hlive, Ht. eauto.
Qed.

(** A step that reads a value, from an index inside a live [argv]: it
    stays, or moves one token on, or finds no token to read at [argc]. *)
Lemma value_step_cases (argv : list wstring) (a b : string)
    (set : Z -> M unit) (s : pstate) :
  (forall v s0, exists s1,
      set v s0 = Ok tt s1 /\ argv_freed s1 = argv_freed s0 /\ i s1 = i s0) ->
  argv_freed s = false ->
  (i s < argc argv)%nat ->
  match Parser.bind (is_flag argv a b)
          (fun c => if c then
                      Parser.bind pre_incr (fun k =>
                      Parser.bind (argv_at argv k) (fun v => set (wcstol v)))
                    else Parser.ret tt) s with
  | Ok _ s1 =>
      argv_freed s1 = false /\ (i s <= i s1 <= S (i s))%nat
      /\ (i s1 < argc argv)%nat
  | Err f s1 =>
      f = OutOfBounds (argc argv) /\ argc argv = S (i s)
      /\ argv_freed s1 = false
  | OutOfFuel => False
  end.
Proof.
  intros Hset Hlive Hlt.
  destruct (is_flag_live argv a b s Hlive Hlt) as [c Hc].
  unfold Parser.bind at 1. rewrite Hc.
  destruct c; [|simpl; repeat split; auto; lia].
  unfold Parser.bind, pre_incr, argv_at. simpl. rewrite Hlive.
  destruct (argv !! S (i s)) as [v|] eqn:Hv.
  - destruct (Hset (wcstol v)
                {| glob := glob s; i := S (i s); argv_freed := false |})
      as (s1 & -> & Hf & Hi).
    simpl in Hf, Hi. rewrite Hf, Hi.
    apply lookup_lt_Some in Hv. unfold argc. repeat split; auto; lia.
  - apply lookup_ge_None in Hv. unfold argc in *. simpl.
    repeat split; auto. f_equal. lia. lia.
Qed.

Lemma modify_glob_total (f : globals -> globals) (s0 : pstate) :
  exists s1, modify_glob f s0 = Ok tt s1
             /\ argv_freed s1 = argv_freed s0 /\ i s1 = i s0.
Proof. eexists. repeat split. Qed.

(** An iteration from an index inside a live [argv]. *)
Lemma loop_body_cases (argv : list wstring) (s : pstate) :
  argv_freed s = false ->
  (i s < argc argv)%nat ->
  match loop_body argv s with
  | Ok _ s1 =>
      argv_freed s1 = true /\ (i s <= i s1 <= i s + 2)%nat
      /\ (i s1 < argc argv)%nat
  | Err f s1 =>
      f = OutOfBounds (argc argv) /\ (argc argv <= i s + 2)%nat
      /\ argv_freed s1 = false
  | OutOfFuel => False
  end.
Proof.
  intros Hlive Hlt. unfold loop_body.
  pose proof (value_step_cases argv "-w" "--width" set_width s
                (fun v s0 => modify_glob_total _ s0) Hlive Hlt) as H1.
  fold (width_step argv) in H1.
  unfold Parser.bind at 1.
  destruct (width_step argv s) as [[] s1|f s1|]; [|intuition lia|exact H1].
  destruct H1 as (Hlive1 & Hi1 & Hlt1).
  pose proof (value_step_cases argv "-h" "--height" set_height s1
                (fun v s0 => modify_glob_total _ s0) Hlive1 Hlt1) as H2.
  fold (height_step argv) in H2.
  unfold Parser.bind at 1.
  destruct (height_step argv s1) as [[] s2|f s2|]; [|intuition lia|exact H2].
  destruct H2 as (Hlive2 & Hi2 & Hlt2).
  destruct (is_flag_live argv "-warp" "--warp" s2 Hlive2 Hlt2) as [c Hc].
  unfold Parser.bind at 1. unfold warp_step. unfold Parser.bind at 1.
  rewrite Hc.
  destruct c; unfold set_warp, modify_glob, Parser.ret, LocalFree; simpl;
    rewrite Hlive2; simpl; repeat split; auto; lia.
Qed.

(** The cases of a run followed up to its first undefined behaviour: by
    then a second [LocalFree] cannot have been the first of them, since the
    iteration that would call it begins with a read of [argv]. *)
Lemma first_fault_cases (argv : list wstring) (g : globals) :
  match ParseCommandLineArguments argv g with
  | Ok _ s =>
      (argc argv <= i s <= 3)%nat
      /\ argv_freed s = negb (argc argv =? 0)%nat
  | Err (OutOfBounds k) s =>
      k = argc argv /\ (1 <= k <= 2)%nat /\ argv_freed s = false
  | Err (UseAfterFree k) s =>
      (1 <= k <= 3)%nat /\ (k < argc argv)%nat /\ argv_freed s = true
  | Err DoubleFree _ => False
  | OutOfFuel => False
  end.
Proof.
  destruct argv as [|t rest]; [simpl; auto with lia|].
  rewrite parse_cons.
  pose proof (loop_body_cases (t :: rest) (entry g) eq_refl) as Hb.
  simpl in Hb. specialize (Hb ltac:(unfold argc; simpl; lia)).
  destruct (loop_body (t :: rest) (entry g)) as [[] s1|f s1|];
    [| |exact Hb].
  - destruct Hb as (Hfreed & Hi & _).
    rewrite for_loop_freed by exact Hfreed. simpl.
    destruct (Nat.ltb_spec (S (i s1)) (S (argc rest))) as [Hlt|Hge].
    + destruct rest as [|t' rest']; [unfold argc in Hlt; simpl in Hlt; lia|].
      simpl. unfold argc in *. simpl in *. repeat split; auto; lia.
    + simpl. unfold argc in *. simpl in *. repeat split; auto; lia.
  - destruct Hb as (-> & Hle & Hlive). unfold argc in *. simpl in *.
    repeat split; auto; lia.
Qed.

(** *** What an iteration reads *)

Lemma bind_ext {A B} (m m' : M A) (k k' : A -> M B) (s : pstate) :
  m s = m' s ->
  (forall a s1, m s = Ok a s1 -> k a s1 = k' a s1) ->
  Parser.bind m k s = Parser.bind m' k' s.
Proof.
  intros Hm Hk. unfold Parser.bind. rewrite <- Hm.
  destruct (m s) as [a s1|f s1|] eqn:E; [apply Hk; reflexivity| |]; reflexivity.
Qed.

Lemma argv_at_ext (argv argv' : list wstring) (k : nat) (s : pstate) :
  argv !! k = argv' !! k -> argv_at argv k s = argv_at argv' k s.
Proof. intros H. unfold argv_at. rewrite H. reflexivity. Qed.

Lemma is_flag_ext (argv argv' : list wstring) (a b : string) (s : pstate) :
  argv !! i s = argv' !! i s ->
  is_flag argv a b s = is_flag argv' a b s.
Proof.
  intros H. unfold is_flag.
  apply bind_ext; [reflexivity|]. intros k s1 [= <- <-].
  apply bind_ext; [apply argv_at_ext, H|]. intros t s1 Ht.
  apply argv_at_ok in Ht as (-> & _ & _).
  destruct (wcscmp t (L a) =? 0); [reflexivity|].
  apply bind_ext; [reflexivity|]. intros k' s1 [= <- <-].
  apply bind_ext; [apply argv_at_ext, H|]. reflexivity.
Qed.

Lemma value_step_ext (argv argv' : list wstring) (a b : string)
    (set : Z -> M unit) (s : pstate) :
  argv !! i s = argv' !! i s ->
  argv !! S (i s) = argv' !! S (i s) ->
  Parser.bind (is_flag argv a b)
    (fun c => if c then
                Parser.bind pre_incr (fun k =>
                Parser.bind (argv_at argv k) (fun v => set (wcstol v)))
              else Parser.ret tt) s =
  Parser.bind (is_flag argv' a b)
    (fun c => if c then
                Parser.bind pre_incr (fun k =>
                Parser.bind (argv_at argv' k) (fun v => set (wcstol v)))
              else Parser.ret tt) s.
Proof.
  intros H0 H1.
  apply bind_ext; [apply is_flag_ext, H0|]. intros c s1 Hc.
  apply is_flag_ok in Hc as (-> & _).
  destruct c; [|reflexivity].
  apply bind_ext; [reflexivity|]. intros k s1 [= <- <-].
  apply bind_ext; [apply argv_at_ext, H1|]. reflexivity.
Qed.

(** A step that reads a value moves [i] on by at most one token. *)
Lemma value_step_index (argv : list wstring) (a b : string)
    (set : Z -> M unit) (s s' : pstate) :
  (forall v s0 s1, set v s0 = Ok tt s1 ->
                   argv_freed s1 = argv_freed s0 /\ i s1 = i s0) ->
  Parser.bind (is_flag argv a b)
    (fun c => if c then
                Parser.bind pre_incr (fun k =>
                Parser.bind (argv_at argv k) (fun v => set (wcstol v)))
              else Parser.ret tt) s = Ok tt s' ->
  (i s <= i s' <= S (i s))%nat.
Proof.
  intros Hset H.
  apply bind_ok in H as (c & s1 & Hc & H).
  apply is_flag_ok in Hc as (-> & Hlive).
  destruct c; [|injection H as <-; lia].
  apply bind_ok in H as (k & s1 & [= <- <-] & H).
  apply bind_ok in H as (v & s2 & Hv & H).
  apply argv_at_ok in Hv as (-> & _ & _).
  apply Hset in H as [_ Hi]. simpl in Hi. lia.
Qed.

(** X4: one iteration reads [argv] at [i], [i + 1] and [i + 2] at most:
    on two argument arrays that hold the same tokens, or the same lack of
    one, at these three indices, an iteration from the same state does the
    same. *)
Theorem iteration_reads_three_tokens (argv argv' : list wstring) (s : pstate) :
  (forall k, (i s <= k <= i s + 2)%nat -> argv !! k = argv' !! k) ->
  loop_body argv s = loop_body argv' s.
Proof.
  intros Hagree. unfold loop_body.
  apply bind_ext.
  { apply value_step_ext; apply Hagree; lia. }
  intros [] s1 H1.
  apply value_step_index in H1; [|intros ? ? ?; apply modify_glob_ok].
  apply bind_ext.
  { apply value_step_ext; apply Hagree; lia. }
  intros [] s2 H2.
  apply value_step_index in H2; [|intros ? ? ?; apply modify_glob_ok].
  apply bind_ext; [|reflexivity].
  unfold warp_step. apply bind_ext; [|reflexivity].
  apply is_flag_ext, Hagree. lia.
Qed.

Lemma iteration_reads_three_tokens_witness :
  loop_body (List.map L ["-w"; "-h"; "600"; "-warp"]%string) (entry defaults) =
  loop_body (List.map L ["-w"; "-h"; "600"; "--width"; "1"]%string)
    (entry defaults).
Proof.
  apply iteration_reads_three_tokens. intros k Hk. simpl in Hk.
  destruct k as [|[|[|k]]]; [reflexivity|reflexivity|reflexivity|lia].
Defined.

(** *** A value flag and its value *)

Lemma wcscmp_neqb (s1 s2 : wstring) :
  s1 <> s2 -> (wcscmp s1 s2 =? 0) = false.
Proof.
  intros Hne. destruct (wcscmp s1 s2 =? 0) eqn:E; [|reflexivity].
  apply wcscmp_eqb in E. contradiction.
Qed.

Lemma is_flag_value (argv : list wstring) (a b : string) (s : pstate)
    (t : wstring) :
  argv_freed s = false ->
  argv !! i s = Some t ->
  is_flag argv a b s =
    Ok ((wcscmp t (L a) =? 0) || (wcscmp t (L b) =? 0)) s.
Proof.
  intros Hlive Ht.
  unfold is_flag, get_i, argv_at, Parser.bind, Parser.ret. rewrite Hlive, Ht.
  destruct (wcscmp t (L a) =? 0); [reflexivity|]. rewrite Hlive, Ht.
  reflexivity.
Qed.

(** The warp test on a live token. *)
Lemma warp_step_value (argv : list wstring) (s : pstate) (t : wstring) :
  argv_freed s = false ->
  argv !! i s = Some t ->
  warp_step argv s =
    Ok tt {| glob := {| g_UseWarp := g_UseWarp (glob s) || is_warp_flag t;
                        g_ClientWidth := g_ClientWidth (glob s);
                        g_ClientHeight := g_ClientHeight (glob s) |};
             i := i s; argv_freed := argv_freed s |}.
Proof.
  intros Hlive Ht. unfold warp_step. unfold Parser.bind.
  rewrite (is_flag_value argv "-warp" "--warp" s t Hlive Ht).
  fold (is_warp_flag t).
  destruct (is_warp_flag t), s as [[uw w h] k fr]; simpl;
    rewrite ?orb_true_r, ?orb_false_r; reflexivity.
Qed.

Lemma wcstol_range (s : wstring) :
  Int.LONG_MIN <= wcstol s <= Int.LONG_MAX.
Proof.
  assert (forall z, Int.LONG_MIN <= clamp_long z <= Int.LONG_MAX) as Hc.
  { intros z. unfold clamp_long, Int.LONG_MIN, Int.LONG_MAX. lia. }
  unfold wcstol. repeat case_match; apply Hc.
Qed.

Lemma to_uint32_of_long (z : Z) :
  Int.LONG_MIN <= z <= Int.LONG_MAX ->
  Int.to_uint32 z = if z <? 0 then z + 2 ^ 32 else z.
Proof.
  unfold Int.LONG_MIN, Int.LONG_MAX, Int.to_uint32. intros Hz.
  destruct (Z.ltb_spec z 0).
  - rewrite <- (Z.mod_add z 1 (2 ^ 32)) by lia.
    rewrite Z.mod_small; lia.
  - rewrite Z.mod_small; lia.
Qed.

(** X5: an argument list of just a width flag and a token that is no
    height flag is parsed to the end, in one iteration: the width becomes
    the conversion of the token (0 when it is no number, and a negative
    number wrapped up by 2^32), the height stays, and [g_UseWarp] is also
    raised when the token is a warp flag. *)
Theorem width_pair_parses (t v : wstring) (g : globals) :
  t = L "-w" \/ t = L "--width" ->
  v <> L "-h" ->
  v <> L "--height" ->
  ParseCommandLineArguments [t; v] g =
    Ok tt {| glob := {| g_UseWarp := g_UseWarp g || is_warp_flag v;
                        g_ClientWidth := Int.to_uint32 (wcstol v);
                        g_ClientHeight := g_ClientHeight g |};
             i := 2; argv_freed := true |}
  /\ Int.to_uint32 (wcstol v) =
       (if wcstol v <? 0 then wcstol v + 2 ^ 32 else wcstol v).
Proof.
  intros Ht Hh Hheight.
  split; [|apply to_uint32_of_long, wcstol_range].
  rewrite parse_cons.
  assert (loop_body [t; v] (entry g) =
          Ok tt {| glob := {| g_UseWarp := g_UseWarp g || is_warp_flag v;
                              g_ClientWidth := Int.to_uint32 (wcstol v);
                              g_ClientHeight := g_ClientHeight g |};
                   i := 1; argv_freed := true |}) as Hb.
  { unfold loop_body. unfold Parser.bind at 1.
    rewrite (width_step_consumes [t; v] (entry g) t v eq_refl eq_refl Ht eq_refl).
    unfold Parser.bind at 1. unfold height_step. unfold Parser.bind at 1.
    erewrite (is_flag_value [t; v] "-h" "--height" _ v);
      [|reflexivity|reflexivity].
    rewrite (wcscmp_neqb _ _ Hh), (wcscmp_neqb _ _ Hheight). simpl.
    unfold Parser.bind at 1.
    erewrite (warp_step_value [t; v] _ v); [|reflexivity|reflexivity].
    reflexivity. }
  rewrite Hb. reflexivity.
Qed.

Lemma width_pair_parses_witness :
  ParseCommandLineArguments (List.map L ["--width"; "-1920"]%string) defaults =
    Ok tt {| glob := {| g_UseWarp := false; g_ClientWidth := 4294965376;
                        g_ClientHeight := 720 |};
             i := 2; argv_freed := true |}.
Proof.
  refine (proj1 (width_pair_parses (L "--width") (L "-1920") defaults _ _ _)).
  - right. reflexivity.
  - discriminate.
  - discriminate.
Defined.

(** X6: an argument list of just a height flag and any token at all is
    parsed to the end, in one iteration: the width test has already been
    made on the flag, so even a width flag in the place of the value is
    only converted (to 0) and stored as the height. *)
Theorem height_pair_parses (t v : wstring) (g : globals) :
  t = L "-h" \/ t = L "--height" ->
  ParseCommandLineArguments [t; v] g =
    Ok tt {| glob := {| g_UseWarp := g_UseWarp g || is_warp_flag v;
                        g_ClientWidth := g_ClientWidth g;
                        g_ClientHeight := Int.to_uint32 (wcstol v) |};
             i := 2; argv_freed := true |}.
Proof.
  intros Ht. rewrite parse_cons.
  assert (loop_body [t; v] (entry g) =
          Ok tt {| glob := {| g_UseWarp := g_UseWarp g || is_warp_flag v;
                              g_ClientWidth := g_ClientWidth g;
                              g_ClientHeight := Int.to_uint32 (wcstol v) |};
                   i := 1; argv_freed := true |}) as Hb.
  { unfold loop_body. unfold Parser.bind at 1. unfold width_step.
    unfold Parser.bind at 1.
    erewrite (is_flag_value [t; v] "-w" "--width" _ t);
      [|reflexivity|reflexivity].
    assert ((wcscmp t (L "-w") =? 0) || (wcscmp t (L "--width") =? 0) = false)
      as -> by (destruct Ht as [-> | ->]; reflexivity).
    unfold Parser.ret. unfold Parser.bind at 1. unfold height_step.
    unfold Parser.bind at 1.
    erewrite (is_flag_value [t; v] "-h" "--height" _ t);
      [|reflexivity|reflexivity].
    assert ((wcscmp t (L "-h") =? 0) || (wcscmp t (L "--height") =? 0) = true)
      as -> by (destruct Ht as [-> | ->]; reflexivity).
    unfold pre_incr, argv_at, set_height, modify_glob, Parser.bind at 1.
    simpl. unfold Parser.bind at 1.
    erewrite (warp_step_value [t; v] _ v); [|reflexivity|reflexivity].
    reflexivity. }
  rewrite Hb. reflexivity.
Qed.

Lemma height_pair_parses_witness :
  ParseCommandLineArguments (List.map L ["-h"; "-w"]%string) defaults =
    Ok tt {| glob := {| g_UseWarp := false; g_ClientWidth := 1280;
                        g_ClientHeight := 0 |};
             i := 2; argv_freed := true |}.
Proof.
  refine (height_pair_parses (L "-h") (L "-w") defaults _).
  left. reflexivity.
Defined.

(** *** The first iteration, flag by flag, and the start of the second *)

Lemma width_step_skip (argv : list wstring) (s : pstate) (t : wstring) :
  argv_freed s = false ->
  argv !! i s = Some t ->
  t <> L "-w" -> t <> L "--width" ->
  width_step argv s = Ok tt s.
Proof.
  intros Hlive Ht Hw Hwidth. unfold width_step, Parser.bind.
  rewrite (is_flag_value argv "-w" "--width" s t Hlive Ht).
  rewrite (wcscmp_neqb _ _ Hw), (wcscmp_neqb _ _ Hwidth). reflexivity.
Qed.

Lemma height_step_skip (argv : list wstring) (s : pstate) (v : wstring) :
  argv_freed s = false ->
  argv !! i s = Some v ->
  v <> L "-h" -> v <> L "--height" ->
  height_step argv s = Ok tt s.
Proof.
  intros Hlive Hv Hh Hheight. unfold height_step, Parser.bind.
  rewrite (is_flag_value argv "-h" "--height" s v Hlive Hv).
  rewrite (wcscmp_neqb _ _ Hh), (wcscmp_neqb _ _ Hheight). reflexivity.
Qed.

(** The height branch on a height flag: [++i], then the read of
    [argv[i]]. *)
Lemma height_step_reads (argv : list wstring) (s : pstate) (t : wstring) :
  argv_freed s = false ->
  argv !! i s = Some t ->
  t = L "-h" \/ t = L "--height" ->
  height_step argv s =
    match argv !! S (i s) with
    | Some u =>
        Ok tt {| glob := {| g_UseWarp := g_UseWarp (glob s);
                            g_ClientWidth := g_ClientWidth (glob s);
                            g_ClientHeight := Int.to_uint32 (wcstol u) |};
                 i := S (i s); argv_freed := false |}
    | None =>
        Err (OutOfBounds (S (i s)))
          {| glob := glob s; i := S (i s); argv_freed := false |}
    end.
Proof.
  intros Hlive Ht Hflag. unfold height_step. unfold Parser.bind at 1.
  rewrite (is_flag_value argv "-h" "--height" s t Hlive Ht).
  assert ((wcscmp t (L "-h") =? 0) || (wcscmp t (L "--height") =? 0) = true)
    as -> by (destruct Hflag as [-> | ->]; reflexivity).
  unfold pre_incr, argv_at, set_height, modify_glob, Parser.bind. simpl.
  rewrite Hlive. destruct (argv !! S (i s)); reflexivity.
Qed.

Lemma height_flag_is_no_width_flag (t : wstring) :
  t = L "-h" \/ t = L "--height" -> t <> L "-w" /\ t <> L "--width".
Proof. intros [-> | ->]; split; discriminate. Qed.

(** A width flag, then a token that is no height flag. *)
Lemma loop_body_width_value (argv : list wstring) (s : pstate)
    (t v : wstring) :
  argv_freed s = false ->
  argv !! i s = Some t ->
  t = L "-w" \/ t = L "--width" ->
  argv !! S (i s) = Some v ->
  v <> L "-h" -> v <> L "--height" ->
  loop_body argv s =
    Ok tt {| glob := {| g_UseWarp := g_UseWarp (glob s) || is_warp_flag v;
                        g_ClientWidth := Int.to_uint32 (wcstol v);
                        g_ClientHeight := g_ClientHeight (glob s) |};
             i := S (i s); argv_freed := true |}.
Proof.
  intros Hlive Ht Hflag Hv Hh Hheight.
  unfold loop_body. unfold Parser.bind at 1.
  rewrite (width_step_consumes argv s t v Hlive Ht Hflag Hv).
  unfold Parser.bind at 1.
  rewrite (height_step_skip argv (after_width v s) v Hlive Hv Hh Hheight).
  unfold Parser.bind at 1.
  rewrite (warp_step_value argv (after_width v s) v Hlive Hv).
  unfold LocalFree. simpl. rewrite Hlive. reflexivity.
Qed.

(** A width flag, then a height flag, which the height test of the same
    iteration takes as a flag again. *)
Lemma loop_body_width_height (argv : list wstring) (s : pstate)
    (t v : wstring) :
  argv_freed s = false ->
  argv !! i s = Some t ->
  t = L "-w" \/ t = L "--width" ->
  argv !! S (i s) = Some v ->
  v = L "-h" \/ v = L "--height" ->
  loop_body argv s =
    match argv !! S (S (i s)) with
    | Some u =>
        Ok tt {| glob := {| g_UseWarp := g_UseWarp (glob s) || is_warp_flag u;
                            g_ClientWidth := Int.to_uint32 (wcstol v);
                            g_ClientHeight := Int.to_uint32 (wcstol u) |};
                 i := S (S (i s)); argv_freed := true |}
    | None =>
        Err (OutOfBounds (S (S (i s))))
          {| glob := {| g_UseWarp := g_UseWarp (glob s);
                        g_ClientWidth := Int.to_uint32 (wcstol v);
                        g_ClientHeight := g_ClientHeight (glob s) |};
             i := S (S (i s)); argv_freed := false |}
    end.
Proof.
  intros Hlive Ht Hflag Hv Hvflag.
  unfold loop_body. unfold Parser.bind at 1.
  rewrite (width_step_consumes argv s t v Hlive Ht Hflag Hv).
  unfold Parser.bind at 1.
  rewrite (height_step_reads argv (after_width v s) v Hlive Hv Hvflag).
  simpl. destruct (argv !! S (S (i s))) as [u|] eqn:Hu; [|reflexivity].
  unfold Parser.bind at 1.
  erewrite (warp_step_value argv _ u); [|reflexivity|exact Hu].
  reflexivity.
Qed.

(** A height flag, then any token. *)
Lemma loop_body_height_value (argv : list wstring) (s : pstate)
    (t v : wstring) :
  argv_freed s = false ->
  argv !! i s = Some t ->
  t = L "-h" \/ t = L "--height" ->
  argv !! S (i s) = Some v ->
  loop_body argv s =
    Ok tt {| glob := {| g_UseWarp := g_UseWarp (glob s) || is_warp_flag v;
                        g_ClientWidth := g_ClientWidth (glob s);
                        g_ClientHeight := Int.to_uint32 (wcstol v) |};
             i := S (i s); argv_freed := true |}.
Proof.
  intros Hlive Ht Hflag Hv.
  destruct (height_flag_is_no_width_flag t Hflag) as [Hw Hwidth].
  unfold loop_body. unfold Parser.bind at 1.
  rewrite (width_step_skip argv s t Hlive Ht Hw Hwidth).
  unfold Parser.bind at 1.
  rewrite (height_step_reads argv s t Hlive Ht Hflag), Hv.
  unfold Parser.bind at 1.
  erewrite (warp_step_value argv _ v); [|reflexivity|exact Hv].
  reflexivity.
Qed.

(** What follows a first iteration that has completed: the end of the
    loop when it has used every token, the read of the released [argv]
    otherwise. *)
Lemma parse_after_first (argv : list wstring) (g : globals) (s1 : pstate) :
  loop_body argv (entry g) = Ok tt s1 ->
  ParseCommandLineArguments argv g =
    if (S (i s1) <? argc argv)%nat then
      Err (UseAfterFree (S (i s1)))
        {| glob := glob s1; i := S (i s1); argv_freed := true |}
    else
      Ok tt {| glob := glob s1; i := S (i s1); argv_freed := true |}.
Proof.
  intros Hb. destruct argv as [|t rest]; [discriminate Hb|].
  rewrite parse_cons, Hb.
  apply loop_body_ok in Hb as [Hfreed _].
  rewrite for_loop_freed by exact Hfreed. simpl. rewrite Hfreed.
  destruct (Nat.ltb_spec (S (i s1)) (S (argc rest))) as [Hlt|Hge];
    [|reflexivity].
  destruct rest as [|t' rest']; [|reflexivity].
  unfold argc in Hlt. simpl in Hlt. lia.
Qed.

(** C2, amended: [LocalFree(argv)] sits inside the loop body, so every
    iteration that completes has released [argv], and every iteration that
    starts after a release reads the released block at [argv[i]]. The first
    iteration uses up one to three tokens; whenever it completes and leaves
    a token behind, the second iteration starts and reads the released
    block, and on four or more tokens that always happens. Token by token:
    it happens at [argv[1]] after a first token that takes no value, at
    [argv[2]] after a value flag and its value, and at [argv[3]] after a
    width flag, a height flag and its value, whenever a further token
    follows. *)
Theorem C2_free_inside_loop (argv : list wstring) (g : globals) :
  (forall s s', loop_body argv s = Ok tt s' -> argv_freed s' = true)
  /\ (forall s, argv_freed s = true ->
        loop_body argv s = Err (UseAfterFree (i s)) s)
  /\ (forall s1, loop_body argv (entry g) = Ok tt s1 ->
        (i s1 <= 2)%nat
        /\ ParseCommandLineArguments argv g =
             if (S (i s1) <? argc argv)%nat then
               Err (UseAfterFree (S (i s1)))
                 {| glob := glob s1; i := S (i s1); argv_freed := true |}
             else
               Ok tt {| glob := glob s1; i := S (i s1); argv_freed := true |})
  /\ ((4 <= argc argv)%nat ->
      exists k s, ParseCommandLineArguments argv g = Err (UseAfterFree k) s
                  /\ argv_freed s = true)
  /\ (forall t t' rest,
        argv = t :: t' :: rest ->
        is_value_flag t = false ->
        ParseCommandLineArguments argv g =
          Err (UseAfterFree 1)
            {| glob := {| g_UseWarp := g_UseWarp g || is_warp_flag t;
                          g_ClientWidth := g_ClientWidth g;
                          g_ClientHeight := g_ClientHeight g |};
               i := 1; argv_freed := true |})
  /\ (forall t v t' rest,
        argv = t :: v :: t' :: rest ->
        t = L "-w" \/ t = L "--width" ->
        v <> L "-h" -> v <> L "--height" ->
        ParseCommandLineArguments argv g =
          Err (UseAfterFree 2)
            {| glob := {| g_UseWarp := g_UseWarp g || is_warp_flag v;
                          g_ClientWidth := Int.to_uint32 (wcstol v);
                          g_ClientHeight := g_ClientHeight g |};
               i := 2; argv_freed := true |})
  /\ (forall t v t' rest,
        argv = t :: v :: t' :: rest ->
        t = L "-h" \/ t = L "--height" ->
        ParseCommandLineArguments argv g =
          Err (UseAfterFree 2)
            {| glob := {| g_UseWarp := g_UseWarp g || is_warp_flag v;
                          g_ClientWidth := g_ClientWidth g;
                          g_ClientHeight := Int.to_uint32 (wcstol v) |};
               i := 2; argv_freed := true |})
  /\ (forall t v u t' rest,
        argv = t :: v :: u :: t' :: rest ->
        t = L "-w" \/ t = L "--width" ->
        v = L "-h" \/ v = L "--height" ->
        ParseCommandLineArguments argv g =
          Err (UseAfterFree 3)
            {| glob := {| g_UseWarp := g_UseWarp g || is_warp_flag u;
                          g_ClientWidth := Int.to_uint32 (wcstol v);
                          g_ClientHeight := Int.to_uint32 (wcstol u) |};
               i := 3; argv_freed := true |}).
Proof.
  split; [intros s s' H; apply (loop_body_ok argv s s' H)|].
  split; [intros s H; apply loop_body_freed, H|].
  split.
  { intros s1 Hb. split; [|apply parse_after_first, Hb].
    destruct argv as [|t rest]; [discriminate Hb|].
    pose proof (loop_body_cases (t :: rest) (entry g) eq_refl
                  ltac:(unfold argc; simpl; lia)) as Hc.
    rewrite Hb in Hc. simpl in Hc. lia. }
  split.
  { intros Hlen. pose proof (first_fault_cases argv g) as Hc.
    destruct (ParseCommandLineArguments argv g) as [[] s|[k|k|] s|];
      try contradiction.
    - lia.
    - lia.
    - exists k, s. split; [reflexivity|apply Hc]. }
  split.
  { intros t t' rest -> Hval.
    rewrite (parse_after_first _ g _
               (loop_body_no_value (t :: t' :: rest) (entry g) t
                  eq_refl eq_refl Hval)).
    reflexivity. }
  split.
  { intros t v t' rest -> Ht Hh Hheight.
    rewrite (parse_after_first _ g _
               (loop_body_width_value (t :: v :: t' :: rest) (entry g) t v
                  eq_refl eq_refl Ht eq_refl Hh Hheight)).
    reflexivity. }
  split.
  { intros t v t' rest -> Ht.
    rewrite (parse_after_first _ g _
               (loop_body_height_value (t :: v :: t' :: rest) (entry g) t v
                  eq_refl eq_refl Ht eq_refl)).
    reflexivity. }
  intros t v u t' rest -> Ht Hv.
  rewrite (parse_after_first _ g _
             (loop_body_width_height (t :: v :: u :: t' :: rest) (entry g)
                t v eq_refl eq_refl Ht eq_refl Hv)).
  reflexivity.
Qed.

(** On [-w 800 x], and on [-w 800 -h 600 -warp], the second iteration reads
    the released [argv[2]]. *)
Lemma C2_free_inside_loop_witness :
  ParseCommandLineArguments (List.map L ["-w"; "800"; "x"]%string) defaults =
    Err (UseAfterFree 2)
      {| glob := {| g_UseWarp := false; g_ClientWidth := 800;
                    g_ClientHeight := 720 |};
         i := 2; argv_freed := true |}
  /\ ParseCommandLineArguments
       (List.map L ["-w"; "800"; "-h"; "600"; "-warp"]%string) defaults =
     Err (UseAfterFree 2)
       {| glob := {| g_UseWarp := false; g_ClientWidth := 800;
                     g_ClientHeight := 720 |};
          i := 2; argv_freed := true |}.
Proof.
  split.
  - refine (proj1 (proj2 (proj2 (proj2 (proj2 (proj2
              (C2_free_inside_loop (List.map L ["-w"; "800"; "x"]%string)
                 defaults))))))
              (L "-w") (L "800") (L "x") [] eq_refl _ _ _).
    + left. reflexivity.
    + discriminate.
    + discriminate.
  - exact (proj2 (proj1 (proj2 (proj2
             (C2_free_inside_loop
                (List.map L ["-w"; "800"; "-h"; "600"; "-warp"]%string)
                defaults)))
             {| glob := {| g_UseWarp := false; g_ClientWidth := 800;
                           g_ClientHeight := 720 |};
                i := 1; argv_freed := true |} eq_refl)).
Defined.

(** C9: the three flag tests are independent [if] statements, so after a
    value-taking flag has consumed the token behind it with [argv[++i]],
    the tests that remain in the iteration are made on that token. After a
    width flag the height test and the warp test are made on the consumed
    token [v]: when [v] is a warp flag, [g_UseWarp] is set beside the
    width; when [v] is a height flag, the height branch fires on it and
    consumes one token more, or reads past the end when there is none.
    After a height flag the warp test is made on the consumed token. In
    each case the width or height stored is the numeric conversion of the
    consumed token. Parsing [-w -warp] gives width 0 and [g_UseWarp = true]
    in one iteration. *)
Theorem C9_checks_apply_to_consumed_value :
  (forall (argv : list wstring) (s : pstate) (t v : wstring),
      argv_freed s = false ->
      argv !! i s = Some t ->
      t = L "-w" \/ t = L "--width" ->
      argv !! S (i s) = Some v ->
      v <> L "-h" -> v <> L "--height" ->
      loop_body argv s =
        Ok tt {| glob := {| g_UseWarp := g_UseWarp (glob s) || is_warp_flag v;
                            g_ClientWidth := Int.to_uint32 (wcstol v);
                            g_ClientHeight := g_ClientHeight (glob s) |};
                 i := S (i s); argv_freed := true |})
  /\ (forall (argv : list wstring) (s : pstate) (t v : wstring),
        argv_freed s = false ->
        argv !! i s = Some t ->
        t = L "-w" \/ t = L "--width" ->
        argv !! S (i s) = Some v ->
        v = L "-h" \/ v = L "--height" ->
        loop_body argv s =
          match argv !! S (S (i s)) with
          | Some u =>
              Ok tt {| glob :=
                         {| g_UseWarp := g_UseWarp (glob s) || is_warp_flag u;
                            g_ClientWidth := Int.to_uint32 (wcstol v);
                            g_ClientHeight := Int.to_uint32 (wcstol u) |};
                       i := S (S (i s)); argv_freed := true |}
          | None =>
              Err (OutOfBounds (S (S (i s))))
                {| glob := {| g_UseWarp := g_UseWarp (glob s);
                              g_ClientWidth := Int.to_uint32 (wcstol v);
                              g_ClientHeight := g_ClientHeight (glob s) |};
                   i := S (S (i s)); argv_freed := false |}
          end)
  /\ (forall (argv : list wstring) (s : pstate) (t v : wstring),
        argv_freed s = false ->
        argv !! i s = Some t ->
        t = L "-h" \/ t = L "--height" ->
        argv !! S (i s) = Some v ->
        loop_body argv s =
          Ok tt {| glob :=
                     {| g_UseWarp := g_UseWarp (glob s) || is_warp_flag v;
                        g_ClientWidth := g_ClientWidth (glob s);
                        g_ClientHeight := Int.to_uint32 (wcstol v) |};
                   i := S (i s); argv_freed := true |})
  /\ ParseCommandLineArguments (List.map L ["-w"; "-warp"]%string) defaults =
       Ok tt {| glob := {| g_UseWarp := true; g_ClientWidth := 0;
                           g_ClientHeight := 720 |};
                i := 2; argv_freed := true |}
  /\ ParseCommandLineArguments (List.map L ["-h"; "-warp"]%string) defaults =
       Ok tt {| glob := {| g_UseWarp := true; g_ClientWidth := 1280;
                           g_ClientHeight := 0 |};
                i := 2; argv_freed := true |}
  /\ ParseCommandLineArguments (List.map L ["-w"; "-h"; "600"]%string)
       defaults =
       Ok tt {| glob := {| g_UseWarp := false; g_ClientWidth := 0;
                           g_ClientHeight := 600 |};
                i := 3; argv_freed := true |}.
Proof.
  split; [exact loop_body_width_value|].
  split; [exact loop_body_width_height|].
  split; [exact loop_body_height_value|].
  repeat split.
Qed.

(** The iteration on [--width --height 600 --warp], and the one on
    [-h --warp]. *)
Lemma C9_checks_apply_to_consumed_value_witness :
  loop_body (List.map L ["--width"; "--height"; "600"; "--warp"]%string)
    (entry defaults) =
    Ok tt {| glob := {| g_UseWarp := false; g_ClientWidth := 0;
                        g_ClientHeight := 600 |};
             i := 2; argv_freed := true |}
  /\ loop_body (List.map L ["-h"; "--warp"]%string) (entry defaults) =
       Ok tt {| glob := {| g_UseWarp := true; g_ClientWidth := 1280;
                           g_ClientHeight := 0 |};
                i := 1; argv_freed := true |}
  /\ loop_body (List.map L ["-w"; "--warp"]%string) (entry defaults) =
       Ok tt {| glob := {| g_UseWarp := true; g_ClientWidth := 0;
                           g_ClientHeight := 720 |};
                i := 1; argv_freed := true |}.
Proof.
  split; [|split].
  - refine (proj1 (proj2 C9_checks_apply_to_consumed_value)
              (List.map L ["--width"; "--height"; "600"; "--warp"]%string)
              (entry defaults) (L "--width") (L "--height") _ _ _ _ _).
    + reflexivity.
    + reflexivity.
    + right. reflexivity.
    + reflexivity.
    + right. reflexivity.
  - refine (proj1 (proj2 (proj2 C9_checks_apply_to_consumed_value))
              (List.map L ["-h"; "--warp"]%string)
              (entry defaults) (L "-h") (L "--warp") _ _ _ _).
    + reflexivity.
    + reflexivity.
    + left. reflexivity.
    + reflexivity.
  - refine (proj1 C9_checks_apply_to_consumed_value
              (List.map L ["-w"; "--warp"]%string)
              (entry defaults) (L "-w") (L "--warp") _ _ _ _ _ _).
    + reflexivity.
    + reflexivity.
    + left. reflexivity.
    + reflexivity.
    + discriminate.
    + discriminate.
Defined.

(** X3: which undefined behaviour a run reaches first. A run that returns
    without any has had at most three tokens, all used by its single
    iteration. A first read past the end is a read of [argv[argc]], in the
    first iteration, on one or two tokens. A first read of the released
    [argv] is at an index from 1 to 3, inside the array. On four or more
    tokens the run always reaches a read of the released [argv]. *)
Theorem parse_first_fault (argv : list wstring) (g : globals) :
  (forall s, ParseCommandLineArguments argv g = Ok tt s ->
             (argc argv <= i s <= 3)%nat)
  /\ (forall k s,
        ParseCommandLineArguments argv g = Err (OutOfBounds k) s ->
        k = argc argv /\ (1 <= k <= 2)%nat /\ argv_freed s = false)
  /\ (forall k s,
        ParseCommandLineArguments argv g = Err (UseAfterFree k) s ->
        (1 <= k <= 3)%nat /\ (k < argc argv)%nat /\ argv_freed s = true)
  /\ ((4 <= argc argv)%nat ->
      exists k s, ParseCommandLineArguments argv g = Err (UseAfterFree k) s).
Proof.
  pose proof (first_fault_cases argv g) as Hc.
  repeat split.
  - rewrite H in Hc. lia.
  - rewrite H in Hc. lia.
  - rewrite H in Hc. apply Hc.
  - rewrite H in Hc. lia.
  - rewrite H in Hc. lia.
  - rewrite H in Hc. apply Hc.
  - rewrite H in Hc. lia.
  - rewrite H in Hc. lia.
  - rewrite H in Hc. lia.
  - rewrite H in Hc. apply Hc.
  - intros Hlen.
    destruct (ParseCommandLineArguments argv g) as [[] s|[k|k|] s|];
      try contradiction; try lia. eauto.
Qed.

End ParserCoverage.

(** ** More on the Win32 / DXGI bootstrap *)

Section Win32Coverage.
Import WChar Win32 Win32Obs DebugLayer.

(** The signed reading of a 32-bit code. *)
Lemma to_int32_of_uint32 (u : Z) :
  0 <= u < 2 ^ 32 ->
  Int.to_int32 u = if u <? 2 ^ 31 then u else u - 2 ^ 32.
Proof.
  intros Hu. unfold Int.to_int32. destruct (Z.ltb_spec u (2 ^ 31)).
  - rewrite Z.mod_small; lia.
  - rewrite <- (Z.mod_add (u + 2 ^ 31) (-1) (2 ^ 32)) by lia.
    rewrite Z.mod_small; lia.
Qed.

Lemma bit31 (u : Z) :
  0 <= u < 2 ^ 32 -> Z.testbit u 31 = negb (u <? 2 ^ 31).
Proof.
  intros Hu. rewrite Z.testbit_eqb by lia.
  destruct (Z.ltb_spec u (2 ^ 31)); simpl.
  - rewrite Z.div_small by lia. reflexivity.
  - assert (u / 2 ^ 31 = 1) as ->; [|reflexivity].
    symmetry. apply (Z.div_unique u (2 ^ 31) 1 (u - 2 ^ 31)); lia.
Qed.

(** X7: on a 32-bit result code, [ThrowIfFailed] throws exactly when the
    severity bit, bit 31, is set. Every code below 0x80000000 passes, the
    success codes other than [S_OK] among them. *)
Theorem ThrowIfFailed_severity_bit (hr : Z) :
  0 <= hr < 2 ^ 32 ->
  (ThrowIfFailed hr = Throw std_exception <-> Z.testbit hr 31 = true)
  /\ (ThrowIfFailed hr = Pure tt <-> hr < 2 ^ 31).
Proof.
  intros Hu. unfold ThrowIfFailed, FAILED.
  rewrite (bit31 hr Hu), (to_int32_of_uint32 hr Hu).
  destruct (Z.ltb_spec hr (2 ^ 31)) as [Hlt|Hge]; simpl.
  - destruct (Z.ltb_spec hr 0); [lia|].
    repeat split; auto; discriminate.
  - destruct (Z.ltb_spec (hr - 2 ^ 32) 0); [|lia].
    repeat split; auto; try discriminate. lia.
Qed.

(** [S_FALSE] passes, [DXGI_ERROR_NOT_FOUND] throws. *)
Lemma ThrowIfFailed_severity_bit_witness :
  ThrowIfFailed 1 = Pure tt /\ ThrowIfFailed 0x887A0002 = Throw std_exception.
Proof.
  split.
  - apply (proj2 (ThrowIfFailed_severity_bit 1 ltac:(lia))). lia.
  - apply (proj1 (ThrowIfFailed_severity_bit 0x887A0002 ltac:(lia))).
    reflexivity.
Defined.

Section AnySystem.
Variable S : Type.
Variable os : forall T, call T -> S -> T * S.

Ltac answer :=
  match goal with
  | |- context [os ?T ?c ?st] =>
      let x := fresh "x" in
      let st' := fresh "st" in
      let E := fresh "E" in
      destruct (os T c st) as [x st'] eqn:E; simpl
  end.

Ltac settle :=
  simpl; unfold succeeded; simpl;
  repeat match goal with H : FAILED _ = _ |- _ => rewrite H end; simpl.

(** X8: [GetAdapter] stops at the first call that fails. It creates one
    factory, first, with the debug flag exactly in a debug build; every
    call it issues before its last one succeeded; it issues at most three
    calls, and one only when [useWarp] is off. *)
Theorem GetAdapter_fails_fast (st : S) (_DEBUG useWarp : bool) :
  let r := run S os (GetAdapter _DEBUG useWarp) st in
  factory_requests (trace r) =
    [if _DEBUG then DXGI_CREATE_FACTORY_DEBUG else 0]
  /\ forallb succeeded (removelast (trace r)) = true
  /\ (1 <= length (trace r) <= if useWarp then 3 else 1)%nat.
Proof.
  unfold GetAdapter, invoke, ThrowIfFailed. simpl. answer.
  destruct x as [hr dxgiFactory].
  destruct (FAILED hr) eqn:F; settle;
    [destruct useWarp; repeat split; lia|].
  destruct useWarp; settle; [|repeat split; lia].
  answer. destruct x as [hr1 dxgiAdapter1].
  destruct (FAILED hr1) eqn:F1; settle; [repeat split; lia|].
  answer. destruct x as [hr4 dxgiAdapter4].
  destruct (FAILED hr4) eqn:F4; settle; repeat split; lia.
Qed.

(** X9: with [useWarp] off, [GetAdapter] asks for no adapter at all,
    neither the WARP adapter nor a physical one: creating the factory is
    its only call, and it ends at its closing brace, or by the throw when
    that call failed. *)
Theorem GetAdapter_hardware_branch_empty (st : S) (_DEBUG : bool) :
  let r := run S os (GetAdapter _DEBUG false) st in
  List.filter is_warp_enumeration (trace r) = []
  /\ List.filter is_physical_enumeration (trace r) = []
  /\ length (trace r) = 1%nat
  /\ ending r = if forallb succeeded (trace r)
                then Finished EndOfBody else Threw std_exception.
Proof.
  unfold GetAdapter, invoke, ThrowIfFailed. simpl. answer.
  destruct x as [hr dxgiFactory].
  destruct (FAILED hr) eqn:F; settle; repeat split.
Qed.

(** Half the room that is left, in [int] arithmetic without overflow. *)
Lemma centre32 (a b : Z) :
  0 <= b <= a -> a <= Int.LONG_MAX ->
  Z.max 0 (Int.div32 (Int.sub32 a b) 2) = (a - b) / 2.
Proof.
  unfold Int.LONG_MAX. intros Hb Ha. unfold Int.div32, Int.sub32.
  rewrite (to_int32_id (a - b))
    by (unfold Int.in_int32, Int.LONG_MIN, Int.LONG_MAX; lia).
  rewrite Z.quot_div_nonneg by lia.
  assert (0 <= (a - b) / 2 <= a - b) as Hq.
  { split; [apply Z.div_pos; lia|].
    apply Z.div_le_upper_bound; lia. }
  rewrite to_int32_id
    by (unfold Int.in_int32, Int.LONG_MIN, Int.LONG_MAX; lia).
  lia.
Qed.

(** X10: a window that fits the screen is centred on it: it lies within
    the screen in both directions, and the margins on its two sides differ
    by one pixel at most, the larger one being on the right and at the
    bottom. *)
Theorem CreateWindow_centred (st : S) (cls title : wstring)
    (hInst : HANDLE) (width height sw sh : Z) (cs : CREATESTRUCT) :
  let r := run S os (CreateWindow cls hInst title width height) st in
  system_metrics (trace r) = [(SM_CXSCREEN, sw); (SM_CYSCREEN, sh)] ->
  created_windows (trace r) = [cs] ->
  0 <= nWidth cs <= sw -> sw <= Int.LONG_MAX ->
  0 <= nHeight cs <= sh -> sh <= Int.LONG_MAX ->
  (0 <= X cs /\ X cs + nWidth cs <= sw
   /\ 0 <= (sw - (X cs + nWidth cs)) - X cs <= 1)
  /\ (0 <= Y cs /\ Y cs + nHeight cs <= sh
      /\ 0 <= (sh - (Y cs + nHeight cs)) - Y cs <= 1).
Proof.
  unfold CreateWindow, invoke. simpl. repeat answer.
  intros [= -> ->] [= <-]. simpl. intros Hw Hsw Hh Hsh.
  rewrite (centre32 _ _ Hw Hsw), (centre32 _ _ Hh Hsh).
  set (ww := Int.sub32 (right (snd x1)) (left (snd x1))) in *.
  set (wh := Int.sub32 (bottom (snd x1)) (top (snd x1))) in *.
  pose proof (Z.div_mod (sw - ww) 2 ltac:(lia)) as Hdw.
  pose proof (Z.mod_pos_bound (sw - ww) 2 ltac:(lia)) as Hmw.
  pose proof (Z.div_mod (sh - wh) 2 ltac:(lia)) as Hdh.
  pose proof (Z.mod_pos_bound (sh - wh) 2 ltac:(lia)) as Hmh.
  lia.
Qed.

(** X11: [CreateWindow] does not look at what [AdjustWindowRect] answers.
    On a system where that call fails and leaves the rectangle alone, the
    window is still created, with the bare requested size as its outer
    size, and the function ends as on success. *)
Theorem CreateWindow_ignores_failed_adjustment (st : S)
    (cls title : wstring) (hInst : HANDLE) (width height : Z)
    (cs : CREATESTRUCT) :
  let r := run S os (CreateWindow cls hInst title width height) st in
  (forall (st' : S) (rc : RECT),
      fst (os _ (AdjustWindowRect rc WS_OVERLAPPEDWINDOW false) st')
      = (false, rc)) ->
  0 <= width <= Int.LONG_MAX ->
  0 <= height <= Int.LONG_MAX ->
  created_windows (trace r) = [cs] ->
  nWidth cs = width /\ nHeight cs = height
  /\ ending r = Finished EndOfBody.
Proof.
  intros r Hfail Hw Hh. subst r.
  unfold CreateWindow, invoke. simpl. repeat answer.
  intros [= <-]. simpl.
  pose proof (Hfail st1
    {| left := 0; top := 0;
       right := Int.to_int32 width; bottom := Int.to_int32 height |}) as Hx.
  rewrite E1 in Hx. simpl in Hx. rewrite Hx. simpl.
  unfold Int.sub32. rewrite !Z.sub_0_r.
  unfold Int.LONG_MAX in *.
  assert (forall z, 0 <= z <= 2 ^ 31 - 1 -> Int.to_int32 z = z) as Hid.
  { intros z Hz. apply to_int32_id.
    unfold Int.in_int32, Int.LONG_MIN, Int.LONG_MAX. lia. }
  rewrite !Hid by (rewrite ?Hid by lia; lia). auto.
Qed.

(** X12: how an invocation of [RegisterWindowClass] that has to register
    ends. It never throws. With assertions compiled in it aborts exactly
    when [RegisterClassExW] handed back no atom; with [NDEBUG] it always
    returns, and the static then holds the atom handed back, 0 included. *)
Theorem RegisterWindowClass_assertion (st : S) (NDEBUG : bool)
    (hInst : HANDLE) (name : wstring) :
  let r := run S os (RegisterWindowClass NDEBUG hInst name None) st in
  exists a : ATOM,
    registration_results (trace r) = [a]
    /\ (ending r = Aborted <-> NDEBUG = false /\ a <= 0)
    /\ (ending r = Finished (Some a) <-> NDEBUG = true \/ 0 < a)
    /\ (forall e, ending r <> Threw e).
Proof.
  unfold RegisterWindowClass, invoke. simpl. repeat answer.
  exists x2. destruct NDEBUG; simpl.
  - split; [reflexivity|]. repeat split; auto; try discriminate.
    intros [? _]. discriminate.
  - destruct (Z.ltb_spec 0 x2); simpl; (split; [reflexivity|]);
      repeat split; auto; try discriminate; try lia;
      try (intros [_ ?]; lia); try (intros [?|?]; [discriminate|lia]).
Qed.

End AnySystem.

(** X13: [EnableDebugLayer] in a release build does nothing at all. In a
    debug build it asks for the debug interface, and switches the debug
    layer on, on the interface it was given, exactly when that query
    succeeded; when the query failed it throws and switches nothing on. *)
Theorem EnableDebugLayer_only_on_success (D : Type)
    (sys : forall T, call T + d3d12_call T -> D -> T * D) (st : D)
    (_DEBUG : bool) :
  let r := drun D sys (EnableDebugLayer _DEBUG) st in
  let got := fst (sys _ (inr D3D12GetDebugInterface) st) in
  enabled_layers (dtrace r) =
    (if _DEBUG && negb (FAILED (fst got)) then [snd got] else [])
  /\ snd r =
       (if _DEBUG && FAILED (fst got) then Threw std_exception
        else Finished tt)
  /\ length (dtrace r) =
       (if _DEBUG then if FAILED (fst got) then 1 else 2 else 0)%nat
  /\ (_DEBUG = false -> snd (fst r) = st).
Proof.
  destruct _DEBUG; simpl; [|auto].
  unfold d3d12, ThrowIfFailed. simpl.
  destruct (sys _ (inr D3D12GetDebugInterface) st) as [[hr itf] st1]. simpl.
  destruct (FAILED hr); simpl.
  - repeat split; auto. discriminate.
  - destruct (sys _ (inr (ID3D12Debug_EnableDebugLayer itf)) st1) as [[] st2].
    simpl. repeat split; auto. discriminate.
Qed.

(** *** On the sample systems *)

Example EnableDebugLayer_without_sdk :
  let r := drun bool sample_d3d12 (EnableDebugLayer true) false in
  enabled_layers (dtrace r) = [] /\ snd r = Threw std_exception.
Proof. split; reflexivity. Qed.

Example EnableDebugLayer_with_sdk :
  let r := drun bool sample_d3d12 (EnableDebugLayer true) true in
  enabled_layers (dtrace r) = [0x7200] /\ snd r = Finished tt.
Proof. split; reflexivity. Qed.

Lemma CreateWindow_centred_witness :
  let r := run nat sample_os
             (CreateWindow (L "DX12WindowClass") 0x400000
                (L "Learning DirectX 12") 1280 720) 0%nat in
  match created_windows (trace r) with
  | [cs] =>
      (X cs = 312 /\ nWidth cs = 1296 /\ Y cs = 160 /\ nHeight cs = 759)
      /\ (0 <= X cs /\ X cs + nWidth cs <= 1920
          /\ 0 <= (1920 - (X cs + nWidth cs)) - X cs <= 1)
      /\ (0 <= Y cs /\ Y cs + nHeight cs <= 1080
          /\ 0 <= (1080 - (Y cs + nHeight cs)) - Y cs <= 1)
  | _ => False
  end.
Proof.
  simpl. split; [repeat split|].
  refine (CreateWindow_centred nat sample_os 0%nat
            (L "DX12WindowClass") (L "Learning DirectX 12") 0x400000
            1280 720 1920 1080 _ eq_refl eq_refl _ _ _ _);
    vm_compute; repeat split; intros; discriminate.
Defined.

Lemma CreateWindow_ignores_failed_adjustment_witness :
  let r := run nat unadjusting_os
             (CreateWindow (L "DX12WindowClass") 0x400000
                (L "Learning DirectX 12") 1280 720) 0%nat in
  match created_windows (trace r) with
  | [cs] => nWidth cs = 1280 /\ nHeight cs = 720
            /\ ending r = Finished EndOfBody
  | _ => False
  end.
Proof.
  simpl.
  refine (CreateWindow_ignores_failed_adjustment nat unadjusting_os 0%nat
            (L "DX12WindowClass") (L "Learning DirectX 12") 0x400000
            1280 720 _ _ _ _ eq_refl).
  - intros st' rc. reflexivity.
  - unfold Int.LONG_MAX. lia.
  - unfold Int.LONG_MAX. lia.
Defined.

End Win32Coverage.
